(** * Speech-end detection of [build/analyze_stimuli.py]

    A shallow embedding of the energy framer ([rolling_energy_db]), the
    speech boundary detector ([detect_speech_end]) and the per-file body of
    the batch pipeline ([main]), followed by the properties of the
    specification.

    Conventions of the embedding.
    - Python [int] is [Z]; indices and lengths keep their sign.
    - Python and numpy floating-point numbers are idealised as exact
      rationals ([Q]): no rounding, no NaN, no infinities.
    - A call that may raise returns a [result]; [except Exception] is a
      match on it.
    - A [while] loop is the iteration of its body, a function from the loop
      state to either the next state or the value the loop leaves with; the
      iteration is by well-founded recursion on a measure that the body
      decreases. *)

From Stdlib Require Import ZArith QArith Qround Qminmax Lia Lqa List Ascii.
From stdpp Require Import gmap strings list fin_maps sorting.
From Equations Require Import Equations.
From Equations.Prop Require Import Logic.
Import ListNotations.

Local Open Scope Z_scope.

(** ** Exceptions *)

Inductive exn : Type :=
  | ValueError (msg : string)
  | RuntimeError (msg : string)
  | ZeroDivisionError
  | IndexError.

(** [str(e)] for the exceptions above; numpy's text of an [IndexError]
    names the index and the size and is abbreviated here. *)
Definition str (e : exn) : string :=
  match e with
  | ValueError msg => msg
  | RuntimeError msg => msg
  | ZeroDivisionError => "division by zero"
  | IndexError => "index out of bounds"
  end.

Inductive result (A : Type) : Type :=
  | Ok (a : A)
  | Raise (e : exn).
Arguments Ok {A} a.
Arguments Raise {A} e.

#[global] Instance result_ret : MRet result := fun _ a => Ok a.
#[global] Instance result_bind : MBind result := fun _ _ f m =>
  match m with
  | Ok a => f a
  | Raise e => Raise e
  end.

(** ** Python primitives *)

(** [len(l)] *)
Definition len {A : Type} (l : list A) : Z := Z.of_nat (length l).

(** [l[i]]: a negative index counts from the end, an index out of range
    raises [IndexError]. *)
Definition getitem {A : Type} (l : list A) (i : Z) : result A :=
  let j := if i <? 0 then i + len l else i in
  if (0 <=? j) && (j <? len l) then
    match l !! Z.to_nat j with
    | Some x => Ok x
    | None => Raise IndexError
    end
  else Raise IndexError.

(** [x / y] on two [int]s: true division. *)
Definition truediv (x y : Z) : result Q :=
  if y =? 0 then Raise ZeroDivisionError
  else Ok (inject_Z x / inject_Z y)%Q.

(** [x > y] on floats. *)
Definition Qgtb (x y : Q) : bool :=
  Qnum y * QDen x <? Qnum x * QDen y.

(** ** While loops *)

Section While.
Context {S R : Type}.
Variable body : S -> S + R.
Variable measure : S -> nat.
Hypothesis body_decreases :
  forall s s', body s = inl s' -> (measure s' < measure s)%nat.

Equations while (s : S) : R by wf (measure s) lt :=
  while s with inspect (body s) => {
    | exist _ (inl s') _ => while s'
    | exist _ (inr r) _ => r }.

(** The loop cut off after [fuel] evaluations of its body. *)
Fixpoint iterate (fuel : nat) (s : S) : option R :=
  match fuel with
  | O => None
  | Datatypes.S fuel' =>
      match body s with
      | inl s' => iterate fuel' s'
      | inr r => Some r
      end
  end.

Lemma while_step (s : S) :
  while s = match body s with inl s' => while s' | inr r => r end.
Proof.
  rewrite while_equation_1.
  destruct (inspect (body s)) as [[s'|r] e]; simpl; rewrite e; reflexivity.
Qed.

(** The loop is left after at most [measure s + 1] evaluations of its
    body. *)
Lemma iterate_while (fuel : nat) (s : S) :
  (measure s < fuel)%nat -> iterate fuel s = Some (while s).
Proof.
  revert s. induction fuel as [|fuel IH]; intros s Hlt; [lia|].
  simpl. rewrite while_step. destruct (body s) as [s'|r] eqn:Hb.
  - apply IH. apply body_decreases in Hb. lia.
  - reflexivity.
Qed.

(** Partial-correctness rule: a relation between the state a loop is
    entered with and the value it leaves with, kept by every iteration. *)
Lemma while_rule (P : S -> R -> Prop) :
  (forall s r, body s = inr r -> P s r) ->
  (forall s s', body s = inl s' -> P s' (while s') -> P s (while s')) ->
  forall s, P s (while s).
Proof.
  intros Hexit Hiter s.
  remember (measure s) as m eqn:Hm. revert s Hm.
  induction m as [m IH] using lt_wf_ind. intros s ->.
  rewrite while_step. destruct (body s) as [s'|r] eqn:Hb.
  - apply Hiter; [exact Hb|].
    apply (IH (measure s')); [now apply body_decreases | reflexivity].
  - now apply Hexit.
Qed.
End While.

(** ** Speech boundary detector *)

(** One iteration of the inner loop
    [while run_start > 0 and above[run_start - 1]: run_start -= 1];
    [inr] carries the value of [run_start] when the loop is left. *)
Definition run_start_iter (above : list bool) (run_start : Z) : Z + result Z :=
  if run_start >? 0 then
    match getitem above (run_start - 1) with
    | Raise e => inr (Raise e)
    | Ok true => inl (run_start - 1)
    | Ok false => inr (Ok run_start)
    end
  else inr (Ok run_start).

Lemma run_start_iter_decreases (above : list bool) (s s' : Z) :
  run_start_iter above s = inl s' -> (Z.to_nat s' < Z.to_nat s)%nat.
Proof.
  unfold run_start_iter.
  destruct (s >? 0) eqn:Hs; [|discriminate].
  destruct (getitem above (s - 1)) as [[|]|]; try discriminate.
  intros [= <-]. lia.
Qed.

Definition run_start_loop (above : list bool) (run_start : Z) : result Z :=
  while (run_start_iter above) Z.to_nat (run_start_iter_decreases above)
        run_start.

(** One iteration of the outer loop [while i >= 0: ...]; [inl] is the next
    value of [i] ([continue] or the end of the body), [inr] is what the
    function leaves with: the [return] inside the loop, an exception, or
    the [return None] that follows the loop once [i >= 0] fails. *)
Definition scan_iter (above : list bool)
    (sample_rate frame_length min_frames : Z) (i : Z)
    : Z + result (option Q) :=
  if i >=? 0 then
    match getitem above i with
    | Raise e => inr (Raise e)
    | Ok b =>
        if negb b then inl (i - 1)
        else
          let run_end := i in
          match run_start_loop above i with
          | Raise e => inr (Raise e)
          | Ok run_start =>
              let run_length := run_end - run_start + 1 in
              if run_length >=? min_frames then
                let speech_end_sample := run_end + frame_length in
                inr (q ← truediv speech_end_sample sample_rate;
                     let speech_end_ms := (q * 1000)%Q in
                     Ok (Some speech_end_ms))
              else inl (run_start - 1)
          end
    end
  else inr (Ok None).

Lemma run_start_loop_le (above : list bool) (i run_start : Z) :
  run_start_loop above i = Ok run_start ->
  run_start <= i /\ (0 <= i -> 0 <= run_start).
Proof.
  unfold run_start_loop. revert run_start.
  apply (while_rule (run_start_iter above) Z.to_nat
           (run_start_iter_decreases above)
           (fun s r => forall rs, r = Ok rs -> rs <= s /\ (0 <= s -> 0 <= rs))).
  - intros s r. unfold run_start_iter.
    destruct (s >? 0) eqn:Hs.
    + destruct (getitem above (s - 1)) as [[|]|]; try discriminate;
        intros [= <-] rs [= <-]; lia.
    + intros [= <-] rs [= <-]. lia.
  - intros s s'. unfold run_start_iter.
    destruct (s >? 0) eqn:Hs; [|discriminate].
    destruct (getitem above (s - 1)) as [[|]|]; try discriminate.
    intros [= <-] IH rs Hrs. specialize (IH rs Hrs). lia.
Qed.

Lemma scan_iter_next (above : list bool)
    (sample_rate frame_length min_frames : Z) (i i' : Z) :
  scan_iter above sample_rate frame_length min_frames i = inl i' ->
  0 <= i /\ -1 <= i' < i.
Proof.
  unfold scan_iter.
  destruct (i >=? 0) eqn:Hi; [|discriminate].
  destruct (getitem above i) as [b|]; [|discriminate].
  destruct (negb b).
  - intros [= <-]. lia.
  - destruct (run_start_loop above i) as [rs|] eqn:Hrs; [|discriminate].
    apply run_start_loop_le in Hrs.
    destruct (i - rs + 1 >=? min_frames); [discriminate|].
    intros [= <-]. lia.
Qed.

Lemma scan_iter_decreases (above : list bool)
    (sample_rate frame_length min_frames : Z) (i i' : Z) :
  scan_iter above sample_rate frame_length min_frames i = inl i' ->
  (Z.to_nat (i' + 1) < Z.to_nat (i + 1))%nat.
Proof. intros H. apply scan_iter_next in H. lia. Qed.

Definition scan_loop (above : list bool)
    (sample_rate frame_length min_frames : Z) (i : Z)
    : result (option Q) :=
  while (scan_iter above sample_rate frame_length min_frames)
        (fun i => Z.to_nat (i + 1))
        (scan_iter_decreases above sample_rate frame_length min_frames)
        i.

(** [above = energy_db > threshold_db] *)
Definition classify (energy_db : list Q) (threshold_db : Q) : list bool :=
  map (fun e => Qgtb e threshold_db) energy_db.

Definition detect_speech_end (energy_db : list Q)
    (sample_rate frame_length : Z) (threshold_db : Q) (min_frames : Z)
    : result (option Q) :=
  let n := len energy_db in
  if n <? min_frames then Ok None
  else
    let above := classify energy_db threshold_db in
    let i := n - 1 in
    scan_loop above sample_rate frame_length min_frames i.


(** ** Energy framer *)

(** [round(x)] with one argument: the nearest integer, a tie going to the
    even neighbour. *)
Definition py_round (x : Q) : Z :=
  let f := Qfloor x in
  match Qcompare (x - inject_Z f) (1 # 2) with
  | Lt => f
  | Gt => f + 1
  | Eq => if Z.even f then f else f + 1
  end.

(** [np.ones(n)] *)
Definition np_ones (n : Z) : list Q := replicate (Z.to_nat n) 1%Q.

(** Sum of the products of [v] with the leading [len(v)] entries of [a]. *)
Fixpoint dot (a v : list Q) : Q :=
  match a, v with
  | x :: a', y :: v' => (x * y + dot a' v')%Q
  | _, _ => 0%Q
  end.

(** [np.correlate(a, v, 'valid')] for [len(v) <= len(a)]: one entry for
    each position at which [v] lies inside [a]. *)
Fixpoint correlate_valid (a v : list Q) : list Q :=
  match a with
  | [] => []
  | _ :: a' =>
      if (length v <=? length a)%nat then dot a v :: correlate_valid a' v
      else []
  end.

(** [np.convolve(a, v, mode='valid')]: numpy swaps the operands when the
    second is the longer one, refuses an empty operand, and correlates the
    longer one with the reversed shorter one. *)
Definition np_convolve_valid (a v : list Q) : result (list Q) :=
  let '(a, v) := if len a <? len v then (v, a) else (a, v) in
  if len a =? 0 then Raise (ValueError "a cannot be empty")
  else if len v =? 0 then Raise (ValueError "v cannot be empty")
  else Ok (correlate_valid a (rev v)).

Section Framer.
(** [np.log10] is not a rational function: the framer takes it as a
    parameter. *)
Variable log10 : Q -> Q.

Definition rolling_energy_db (signal : list Q) (sample_rate : Z)
    (frame_ms : Q) : result (list Q * Z) :=
  let frame_length :=
    Z.max 1 (py_round (inject_Z sample_rate * frame_ms / 1000)%Q) in
  let window :=
    map (fun o => (o / inject_Z frame_length)%Q) (np_ones frame_length) in
  energy ← np_convolve_valid (map (fun x => (x * x)%Q) signal) window;
  let energy_db :=
    map (fun e => (10 * log10 (Qmax e (1 # 1000000000000)))%Q) energy in
  Ok (energy_db, frame_length).

End Framer.

(** ** Batch pipeline *)

Definition THRESHOLD_DB : Q := (-40)%Q.
Definition FRAME_MS : Q := 10%Q.
Definition MIN_FRAMES : Z := 4.

(** The two accumulators of [main]. *)
Record state : Type := State {
  durations : gmap string Q;
  errors : list string
}.

(** [round(x, 1)] *)
Definition round1 (x : Q) : Q := (inject_Z (py_round (x * 10)) / 10)%Q.

Section Pipeline.
Variable log10 : Q -> Q.

(** The statements of the [try] block that can raise, up to the call of
    the detector; they come before any update of [durations] or [errors].
    [decoded] is what [decode_mp3] did on the file. *)
Definition main_try (decoded : result (list Q * Z))
    : result (Q * option Q) :=
  '(samples, sr) ← decoded;
  q ← truediv (len samples) sr;
  let total_ms := (q * 1000)%Q in
  '(energy_db, frame_length) ← rolling_energy_db log10 samples sr FRAME_MS;
  end_ms ← detect_speech_end energy_db sr frame_length
             THRESHOLD_DB MIN_FRAMES;
  Ok (total_ms, end_ms).

(** The body of the loop over the files of a voice: the [try] block and
    its [except Exception] handler. *)
Definition main_file (key : string) (decoded : result (list Q * Z))
    (st : state) : state :=
  match main_try decoded with
  | Ok (total_ms, None) =>
      let errors' := errors st ++ [key +:+ ": no speech detected"] in
      let end_ms := total_ms in
      State (<[key := round1 end_ms]> (durations st)) errors'
  | Ok (total_ms, Some end_ms) =>
      State (<[key := round1 end_ms]> (durations st)) (errors st)
  | Raise e =>
      State (durations st) (errors st ++ [key +:+ ": " +:+ str e])
  end.

(** The loops of [main] over the voices and their files, on the corpus
    given in enumeration order as the key of each file with the outcome of
    its decoding. *)
Definition main_loop (corpus : list (string * result (list Q * Z)))
    (st : state) : state :=
  fold_left (fun st f => main_file f.1 f.2 st) corpus st.

Definition main (corpus : list (string * result (list Q * Z))) : state :=
  main_loop corpus (State ∅ []).

End Pipeline.

(** ** The corpus of [main]

    Python strings are taken as the byte strings of their UTF-8 encoding:
    for the operations below (suffix test, replacement of an ASCII
    substring, concatenation, order by code point) the two agree. *)

(** [s.endswith(suffix)] *)
Definition endswith (s suffix : string) : bool :=
  let n := String.length s in
  let m := String.length suffix in
  (m <=? n)%nat && String.eqb (String.substring (n - m) m s) suffix.

(** [s.replace(old, new)] for a non-empty [old]: the occurrences of [old]
    found from left to right, without overlap, are replaced; [skip] counts
    the characters of an occurrence that remain to be passed. *)
Fixpoint replace_from (old new : string) (skip : nat) (s : string)
    : string :=
  match s with
  | EmptyString => EmptyString
  | String c s' =>
      match skip with
      | S skip' => replace_from old new skip' s'
      | O =>
          if String.prefix old s
          then new +:+ replace_from old new (String.length old - 1) s'
          else String c (replace_from old new 0 s')
      end
  end.

Definition str_replace (s old new : string) : string :=
  replace_from old new 0 s.

(** [os.path.join(a, b)] of [posixpath]. *)
Definition path_join (a b : string) : string :=
  if String.prefix "/" b then b
  else if String.eqb a "" || endswith a "/" then a +:+ b
  else a +:+ "/" +:+ b.

(** [sorted(l)] on strings: the sorted permutation of [l]. *)
Definition sorted (l : list string) : list string :=
  merge_sort String.le l.

Definition VOICES : list string := ["male"; "female"].

Section Corpus.
(** What [main] takes from its environment: the root directory, the file
    system ([os.path.isdir], [os.listdir]), [strip_accents], which rests on
    the tables of [unicodedata], and the decoder. *)
Variable log10 : Q -> Q.
Variable STIMULI_ROOT : string.
Variable isdir : string -> bool.
Variable listdir : string -> list string.
Variable strip_accents : string -> string.
Variable decode_mp3 : string -> result (list Q * Z).

(** The key and the decoding of one file of a voice directory. *)
Definition main_item (voice voice_dir mp3_file : string)
    : string * result (list Q * Z) :=
  let mp3_path := path_join voice_dir mp3_file in
  let word := str_replace mp3_file ".mp3" "" in
  let word_normalized := strip_accents word in
  let key := voice +:+ "_" +:+ word_normalized in
  (key, decode_mp3 mp3_path).

(** The files of one voice, in the order of the inner loop; a voice
    without a directory is passed over. *)
Definition main_voice (voice : string)
    : list (string * result (list Q * Z)) :=
  let voice_dir := path_join STIMULI_ROOT voice in
  if negb (isdir voice_dir) then []
  else
    let mp3_files :=
      sorted (filter (fun f => endswith f ".mp3") (listdir voice_dir)) in
    map (main_item voice voice_dir) mp3_files.

(** [main] from its first line to the accumulators it writes out: [None]
    is [sys.exit(1)] on a missing root directory. *)
Definition main_run : option state :=
  if negb (isdir STIMULI_ROOT) then None
  else Some (main log10 (concat (map main_voice VOICES))).

End Corpus.

(** No character of [s] is a dot. *)
Fixpoint dotless (s : string) : bool :=
  match s with
  | EmptyString => true
  | String c s' => negb (Ascii.eqb c "."%char) && dotless s'
  end.

(** The file was decoded and framed and the detector returned a
    timestamp for it. *)
Definition detected (log10 : Q -> Q) (decoded : result (list Q * Z))
    : bool :=
  match main_try log10 decoded with
  | Ok (_, Some _) => true
  | _ => false
  end.

(** A computable stand-in for [np.log10] on concrete inputs: the integer
    part [floor(log10 q)] of the decimal logarithm of [q > 0], exact on the
    powers of ten and never above the logarithm. *)
Fixpoint log10_up (fuel : nat) (a b : Z) : Z :=
  match fuel with
  | O => 0
  | S fuel' => if 10 * b <=? a then 1 + log10_up fuel' a (10 * b) else 0
  end.

Fixpoint log10_down (fuel : nat) (a b : Z) : Z :=
  match fuel with
  | O => 0
  | S fuel' => if a <? b then log10_down fuel' (10 * a) b - 1 else 0
  end.

Definition log10_floor (q : Q) : Q :=
  let a := Qnum q in
  let b := Z.pos (Qden q) in
  let fuel := S (Z.to_nat (Z.log2 (Z.max a b))) in
  inject_Z (if a <? b then log10_down fuel a b else log10_up fuel a b).

(** ** Frames and runs of an energy profile *)

(** Frame [j] exists and its energy is strictly above the threshold. *)
Definition above_threshold (energy_db : list Q) (threshold_db : Q) (j : Z)
    : Prop :=
  exists e, energy_db !! Z.to_nat j = Some e /\ (threshold_db < e)%Q.

(** Frame [j] exists and its energy is at or below the threshold. *)
Definition below_threshold (energy_db : list Q) (threshold_db : Q) (j : Z)
    : Prop :=
  exists e, energy_db !! Z.to_nat j = Some e /\ (e <= threshold_db)%Q.

(** Frames [s..e] are a run: all above the threshold, and neither the
    frame before [s] nor the frame after [e], where there is one, is. *)
Definition maximal_run (energy_db : list Q) (threshold_db : Q) (s e : Z)
    : Prop :=
  0 <= s <= e /\ e < len energy_db /\
  (forall j, s <= j <= e -> above_threshold energy_db threshold_db j) /\
  (s = 0 \/ below_threshold energy_db threshold_db (s - 1)) /\
  (e = len energy_db - 1 \/ below_threshold energy_db threshold_db (e + 1)).

(** The timestamp of the end of the frame with index [run_end]. *)
Definition end_ms (run_end frame_length sample_rate : Z) : Q :=
  (inject_Z (run_end + frame_length) / inject_Z sample_rate * 1000)%Q.

(** The sum of a list of numbers. *)
Definition Qsum (l : list Q) : Q := foldr Qplus 0%Q l.

(** The mean of the squares of the [frame_length] samples from index [k]
    on. *)
Definition frame_power (signal : list Q) (frame_length k : Z) : Q :=
  (Qsum (map (fun x => (x * x)%Q)
           (take (Z.to_nat frame_length) (drop (Z.to_nat k) signal)))
   / inject_Z frame_length)%Q.

(** Case analysis on a frame index [j] between [k] and [k + fuel]. *)
Ltac frame_range j k fuel :=
  match fuel with
  | O => lia
  | Datatypes.S ?f =>
      destruct (Z.eq_dec j k) as [->|];
      [ first [ lia
              | eexists; split;
                [reflexivity | first [reflexivity | discriminate]] ]
      | frame_range j (k + 1) f ]
  end.

(** * Properties *)

(** ** Indexing and comparison *)

Lemma getitem_lookup {A : Type} (l : list A) (j : Z) (x : A) :
  0 <= j -> l !! Z.to_nat j = Some x -> getitem l j = Ok x.
Proof.
  intros Hj Hl. unfold getitem, len.
  pose proof (lookup_lt_Some _ _ _ Hl) as Hlt.
  destruct (j <? 0) eqn:Hneg; [lia|].
  replace ((0 <=? j) && (j <? Z.of_nat (length l))) with true
    by (symmetry; apply andb_true_iff; split; lia).
  now rewrite Hl.
Qed.

Lemma Qgtb_lt (x y : Q) : Qgtb x y = true <-> (y < x)%Q.
Proof. unfold Qgtb, Qlt. apply Z.ltb_lt. Qed.

Lemma Qgtb_le (x y : Q) : Qgtb x y = false <-> (x <= y)%Q.
Proof. unfold Qgtb, Qle. rewrite Z.ltb_ge. reflexivity. Qed.

Lemma classify_lookup (energy_db : list Q) (threshold_db : Q) (j : nat) :
  classify energy_db threshold_db !! j =
  (fun e => Qgtb e threshold_db) <$> energy_db !! j.
Proof. unfold classify. apply list_lookup_fmap. Qed.

Lemma len_classify (energy_db : list Q) (threshold_db : Q) :
  len (classify energy_db threshold_db) = len energy_db.
Proof. unfold len, classify. now rewrite length_map. Qed.

(** ** The two loops of the detector *)

Lemma scan_loop_step (above : list bool) (sr fl mf i : Z) :
  scan_loop above sr fl mf i =
  match scan_iter above sr fl mf i with
  | inl i' => scan_loop above sr fl mf i'
  | inr r => r
  end.
Proof. unfold scan_loop. apply while_step. Qed.

Lemma run_start_loop_step (above : list bool) (run_start : Z) :
  run_start_loop above run_start =
  match run_start_iter above run_start with
  | inl s' => run_start_loop above s'
  | inr r => r
  end.
Proof. unfold run_start_loop. apply while_step. Qed.

(** The inner loop stops at the start of the run of [true] entries that
    ends just before the index it is entered with. *)
Lemma run_start_loop_found (above : list bool) (s e : Z) :
  0 <= s <= e ->
  (forall j, s <= j < e -> above !! Z.to_nat j = Some true) ->
  s = 0 \/ above !! Z.to_nat (s - 1) = Some false ->
  run_start_loop above e = Ok s.
Proof.
  intros Hse Hrun Hstart.
  remember (Z.to_nat (e - s)) as k eqn:Hk. revert e Hse Hrun Hk.
  induction k as [|k IH]; intros e Hse Hrun Hk;
    rewrite run_start_loop_step; unfold run_start_iter.
  - assert (e = s) as -> by lia.
    destruct Hstart as [-> | Hfalse]; [reflexivity|].
    destruct (s >? 0) eqn:Hs; [|reflexivity].
    rewrite (getitem_lookup above (s - 1) false); [reflexivity|lia|exact Hfalse].
  - replace (e >? 0) with true by (symmetry; apply Z.gtb_lt; lia).
    rewrite (getitem_lookup above (e - 1) true); [|lia|apply Hrun; lia].
    apply IH; [lia| |lia]. intros j Hj. apply Hrun. lia.
Qed.

Lemma scan_loop_neg (above : list bool) (sr fl mf i : Z) :
  i < 0 -> scan_loop above sr fl mf i = Ok None.
Proof.
  intros Hi. rewrite scan_loop_step. unfold scan_iter.
  now replace (i >=? 0) with false by (symmetry; rewrite Z.geb_leb; apply Z.leb_gt; lia).
Qed.

(** Frames below the threshold are skipped one at a time. *)
Lemma scan_loop_skip (above : list bool) (sr fl mf k i : Z) :
  -1 <= k <= i ->
  (forall j, k < j <= i -> above !! Z.to_nat j = Some false) ->
  scan_loop above sr fl mf i = scan_loop above sr fl mf k.
Proof.
  intros Hki Hbelow.
  remember (Z.to_nat (i - k)) as d eqn:Hd. revert i Hki Hbelow Hd.
  induction d as [|d IH]; intros i Hki Hbelow Hd.
  - now replace i with k by lia.
  - rewrite scan_loop_step. unfold scan_iter.
    replace (i >=? 0) with true by (symmetry; apply Z.geb_le; lia).
    rewrite (getitem_lookup above i false); [|lia|apply Hbelow; lia].
    simpl. apply IH; [lia| |lia]. intros j Hj. apply Hbelow. lia.
Qed.

(** On the last frame of a maximal run the scan either returns the end of
    that run or resumes just before its start. *)
Lemma scan_loop_run (above : list bool) (sr fl mf s e : Z) :
  0 <= s <= e ->
  (forall j, s <= j <= e -> above !! Z.to_nat j = Some true) ->
  s = 0 \/ above !! Z.to_nat (s - 1) = Some false ->
  scan_loop above sr fl mf e =
  if e - s + 1 >=? mf
  then q ← truediv (e + fl) sr; Ok (Some (q * 1000)%Q)
  else scan_loop above sr fl mf (s - 1).
Proof.
  intros Hse Hrun Hstart.
  rewrite scan_loop_step. unfold scan_iter.
  replace (e >=? 0) with true by (symmetry; apply Z.geb_le; lia).
  rewrite (getitem_lookup above e true); [|lia|apply Hrun; lia].
  simpl.
  rewrite (run_start_loop_found above s e); [|lia| |exact Hstart].
  - destruct (e - s + 1 >=? mf); reflexivity.
  - intros j Hj. apply Hrun. lia.
Qed.

(** ** Frames and runs: lemmas *)

Lemma classify_above (energy_db : list Q) (threshold_db : Q) (j : Z) :
  above_threshold energy_db threshold_db j ->
  classify energy_db threshold_db !! Z.to_nat j = Some true.
Proof.
  intros (e & He & Hlt). rewrite classify_lookup, He. simpl.
  f_equal. now apply Qgtb_lt.
Qed.

Lemma classify_below (energy_db : list Q) (threshold_db : Q) (j : Z) :
  below_threshold energy_db threshold_db j ->
  classify energy_db threshold_db !! Z.to_nat j = Some false.
Proof.
  intros (e & He & Hle). rewrite classify_lookup, He. simpl.
  f_equal. now apply Qgtb_le.
Qed.

Lemma truediv_ok (x y : Z) :
  y <> 0 -> truediv x y = Ok (inject_Z x / inject_Z y)%Q.
Proof.
  intros Hy. unfold truediv.
  now replace (y =? 0) with false by (symmetry; apply Z.eqb_neq; exact Hy).
Qed.

(** The scan entered on the last frame of a run of the profile. *)
Lemma scan_loop_maximal_run (energy_db : list Q) (threshold_db : Q)
    (sr fl mf s e : Z) :
  maximal_run energy_db threshold_db s e ->
  scan_loop (classify energy_db threshold_db) sr fl mf e =
  if e - s + 1 >=? mf
  then q ← truediv (e + fl) sr; Ok (Some (q * 1000)%Q)
  else scan_loop (classify energy_db threshold_db) sr fl mf (s - 1).
Proof.
  intros (Hse & _ & Hrun & Hstart & _).
  apply scan_loop_run; [exact Hse| |].
  - intros j Hj. apply classify_above, Hrun, Hj.
  - destruct Hstart as [->|Hb]; [now left|right; now apply classify_below].
Qed.

Lemma above_below_excl (energy_db : list Q) (threshold_db : Q) (j : Z) :
  above_threshold energy_db threshold_db j ->
  below_threshold energy_db threshold_db j -> False.
Proof.
  intros (e & He & Hlt) (e' & He' & Hle).
  rewrite He in He'. injection He' as <-.
  exact (Qlt_not_le _ _ Hlt Hle).
Qed.

Lemma above_or_below (energy_db : list Q) (threshold_db : Q) (j : Z) :
  0 <= j < len energy_db ->
  above_threshold energy_db threshold_db j \/
  below_threshold energy_db threshold_db j.
Proof.
  intros Hj. destruct (energy_db !! Z.to_nat j) as [e|] eqn:He.
  - destruct (Qlt_le_dec threshold_db e) as [Hlt|Hle].
    + left. now exists e.
    + right. now exists e.
  - apply lookup_ge_None in He. unfold len in Hj. lia.
Qed.

(** Every frame above the threshold is the end of a run that starts
    somewhere at or before it. *)
Lemma run_start_exists (energy_db : list Q) (threshold_db : Q) (i : Z) :
  0 <= i < len energy_db ->
  above_threshold energy_db threshold_db i ->
  exists s, 0 <= s <= i /\
    (forall j, s <= j <= i -> above_threshold energy_db threshold_db j) /\
    (s = 0 \/ below_threshold energy_db threshold_db (s - 1)).
Proof.
  remember (Z.to_nat i) as k eqn:Hk. revert i Hk.
  induction k as [|k IH]; intros i Hk Hi Habove.
  - exists i. split; [lia|]. split.
    + intros j Hj. now replace j with i by lia.
    + left. lia.
  - destruct (above_or_below energy_db threshold_db (i - 1)) as [Ha|Hb];
      [lia| |].
    + destruct (IH (i - 1)) as (s & Hs & Hrun & Hstart); [lia|lia|exact Ha|].
      exists s. split; [lia|]. split; [|exact Hstart].
      intros j Hj. destruct (Z.eq_dec j i) as [->|Hne]; [exact Habove|].
      apply Hrun. lia.
    + exists i. split; [lia|]. split; [|now right].
      intros j Hj. now replace j with i by lia.
Qed.

(** The scan returns the end of the last run of at least [min_frames]
    frames: entered at or after the end [e1] of that run, on a frame that
    is not inside a run cut on its right, it passes the shorter runs that
    follow and stops on [e1]. *)
Lemma scan_loop_last_qualifying (energy_db : list Q) (threshold_db : Q)
    (sr fl mf s1 e1 : Z) :
  sr <> 0 ->
  maximal_run energy_db threshold_db s1 e1 ->
  mf <= e1 - s1 + 1 ->
  (forall s e, maximal_run energy_db threshold_db s e -> e1 < s ->
               e - s + 1 < mf) ->
  forall i, e1 <= i < len energy_db ->
    (i = len energy_db - 1 \/
     below_threshold energy_db threshold_db (i + 1) \/
     below_threshold energy_db threshold_db i) ->
    scan_loop (classify energy_db threshold_db) sr fl mf i
    = Ok (Some (end_ms e1 fl sr)).
Proof.
  intros Hsr Hlong Hlen1 Hlater i.
  pose proof Hlong as (Hse1 & He1 & Hrun1 & _ & Hend1).
  remember (Z.to_nat (i - e1)) as d eqn:Hd. revert i Hd.
  induction d as [d IH] using lt_wf_ind. intros i Hd Hi Hcut.
  destruct (above_or_below energy_db threshold_db i) as [Ha|Hb]; [lia| |].
  - destruct (Z.eq_dec i e1) as [->|Hne].
    + rewrite (scan_loop_maximal_run _ _ _ _ _ s1 e1 Hlong).
      replace (e1 - s1 + 1 >=? mf) with true
        by (symmetry; apply Z.geb_le; lia).
      now rewrite truediv_ok.
    + destruct (run_start_exists energy_db threshold_db i)
        as (s & Hs & Hrun & Hstart); [lia|exact Ha|].
      assert (Hmax : maximal_run energy_db threshold_db s i).
      { split; [lia|]. split; [lia|]. split; [exact Hrun|].
        split; [exact Hstart|].
        destruct Hcut as [->|[Hb|Hb]]; [now left|now right|].
        destruct (above_below_excl _ _ _ Ha Hb). }
      assert (Hafter : e1 < s).
      { destruct (Z_lt_le_dec e1 s) as [Hlt|Hle]; [exact Hlt|].
        destruct Hend1 as [Hlast|Hb]; [lia|].
        destruct (above_below_excl energy_db threshold_db (e1 + 1));
          [apply Hrun; lia|exact Hb]. }
      rewrite (scan_loop_maximal_run _ _ _ _ _ s i Hmax).
      replace (i - s + 1 >=? mf) with false.
      2:{ symmetry. rewrite Z.geb_leb. apply Z.leb_gt.
          apply (Hlater s i Hmax Hafter). }
      apply (IH (Z.to_nat (s - 1 - e1))); [lia|reflexivity|lia|].
      right. right. destruct Hstart as [->|Hb]; [lia|exact Hb].
  - assert (i <> e1) as Hne.
    { intros ->. apply (above_below_excl energy_db threshold_db e1);
        [apply Hrun1; lia|exact Hb]. }
    rewrite (scan_loop_skip _ _ _ _ (i - 1)); [|lia|].
    + apply (IH (Z.to_nat (i - 1 - e1))); [lia|reflexivity|lia|].
      right. left. now replace (i - 1 + 1) with i by lia.
    + intros j Hj. replace j with i by lia. now apply classify_below.
Qed.

(** ** The detector on the profiles of the specification *)

(** C6: a profile none of whose frames is strictly above the threshold
    gives "not found", whatever its length and the other parameters. *)
Theorem detect_speech_end_all_below (energy_db : list Q)
    (sample_rate frame_length : Z) (threshold_db : Q) (min_frames : Z) :
  (forall e, e ∈ energy_db -> (e <= threshold_db)%Q) ->
  detect_speech_end energy_db sample_rate frame_length threshold_db
    min_frames = Ok None.
Proof.
  intros Hall. unfold detect_speech_end.
  destruct (len energy_db <? min_frames); [reflexivity|].
  cbv zeta.
  rewrite (scan_loop_skip _ _ _ _ (-1)).
  - now apply scan_loop_neg.
  - unfold len. lia.
  - intros j Hj. apply classify_below.
    destruct (energy_db !! Z.to_nat j) as [e|] eqn:He.
    + exists e. split; [exact He|].
      apply Hall. eapply list_elem_of_lookup_2. exact He.
    + apply lookup_ge_None in He. unfold len in Hj. lia.
Qed.

Lemma detect_speech_end_all_below_witness :
  detect_speech_end [-50; -40; -120; -41; -40]%Q 16000 160 (-40)%Q 4
  = Ok None.
Proof.
  apply detect_speech_end_all_below.
  intros e He. repeat (apply elem_of_cons in He; destruct He as [->|He]);
    [discriminate..|]. now apply elem_of_nil in He.
Defined.

(** C4: when the only frames above the threshold are the last
    [min_frames] frames of the profile, the detector returns the end of
    that run, [(last frame index + frame_length) / sample_rate * 1000]: a
    run of length exactly [min_frames] is accepted. *)
Theorem detect_speech_end_exact_run_at_end (energy_db : list Q)
    (sample_rate frame_length : Z) (threshold_db : Q) (min_frames : Z) :
  sample_rate <> 0 ->
  1 <= min_frames <= len energy_db ->
  (forall j, 0 <= j < len energy_db - min_frames ->
             below_threshold energy_db threshold_db j) ->
  (forall j, len energy_db - min_frames <= j < len energy_db ->
             above_threshold energy_db threshold_db j) ->
  detect_speech_end energy_db sample_rate frame_length threshold_db
    min_frames
  = Ok (Some (end_ms (len energy_db - 1) frame_length sample_rate)).
Proof.
  intros Hsr Hmf Hbelow Habove. unfold detect_speech_end.
  replace (len energy_db <? min_frames) with false
    by (symmetry; apply Z.ltb_ge; lia).
  cbv zeta.
  rewrite (scan_loop_maximal_run energy_db threshold_db _ _ _
             (len energy_db - min_frames)).
  - replace (len energy_db - 1 - (len energy_db - min_frames) + 1
             >=? min_frames) with true
      by (symmetry; apply Z.geb_le; lia).
    now rewrite truediv_ok.
  - split; [lia|]. split; [lia|]. split; [|split].
    + intros j Hj. apply Habove. lia.
    + destruct (Z.eq_dec (len energy_db - min_frames) 0) as [H0|H0];
        [now left|right]. apply Hbelow. lia.
    + now left.
Qed.

Lemma detect_speech_end_exact_run_at_end_witness :
  detect_speech_end [-60; -60; -60; -10; -12; -9; -10]%Q 16000 160
    (-40)%Q 4
  = Ok (Some (end_ms 6 160 16000)).
Proof.
  apply (detect_speech_end_exact_run_at_end
           [-60; -60; -60; -10; -12; -9; -10]%Q 16000 160 (-40)%Q 4).
  - lia.
  - unfold len. simpl. lia.
  - unfold len. simpl. intros j Hj.
    assert (j = 0 \/ j = 1 \/ j = 2) as [->|[->| ->]] by lia;
      (eexists; split; [reflexivity|discriminate]).
  - unfold len. simpl. intros j Hj.
    assert (j = 3 \/ j = 4 \/ j = 5 \/ j = 6) as [->|[->|[->| ->]]] by lia;
      (eexists; split; [reflexivity|reflexivity]).
Defined.

(** C1: a trailing run shorter than [min_frames] (no frame after it is
    above the threshold), with an earlier run of at least [min_frames]
    frames and only shorter runs, if any, between the two: the detector
    returns the end of the earlier run,
    [(its last frame index + frame_length) / sample_rate * 1000], and the
    iteration that rejects the trailing run resumes the scan just before
    that run's start. *)
Theorem detect_speech_end_skips_short_trailing_run (energy_db : list Q)
    (sample_rate frame_length : Z) (threshold_db : Q) (min_frames : Z)
    (s1 e1 s2 e2 : Z) :
  sample_rate <> 0 ->
  maximal_run energy_db threshold_db s1 e1 ->
  min_frames <= e1 - s1 + 1 ->
  maximal_run energy_db threshold_db s2 e2 ->
  e2 - s2 + 1 < min_frames ->
  e1 < s2 ->
  (forall j, e2 < j < len energy_db ->
             below_threshold energy_db threshold_db j) ->
  (forall s e, maximal_run energy_db threshold_db s e ->
               e1 < s -> e < s2 -> e - s + 1 < min_frames) ->
  detect_speech_end energy_db sample_rate frame_length threshold_db
    min_frames
  = Ok (Some (end_ms e1 frame_length sample_rate))
  /\ scan_iter (classify energy_db threshold_db) sample_rate frame_length
       min_frames e2 = inl (s2 - 1).
Proof.
  intros Hsr Hlong Hlen1 Hshort Hlen2 Horder Htail Hbetween.
  pose proof Hlong as (Hse1 & He1 & _).
  pose proof Hshort as (Hse2 & He2 & Hrun2 & Hstart2 & Hend2).
  split.
  - unfold detect_speech_end.
    replace (len energy_db <? min_frames) with false
      by (symmetry; apply Z.ltb_ge; lia).
    cbv zeta.
    apply (scan_loop_last_qualifying energy_db threshold_db _ _ _ s1 e1);
      [exact Hsr|exact Hlong|exact Hlen1| |lia|now left].
    intros s e Hmax Hafter.
    destruct (Z_lt_le_dec e s2) as [Hlt|Hge]; [now apply Hbetween|].
    destruct Hmax as (Hse & He & Hrun & Hstart & Hend).
    assert (e <= e2) as Hle2.
    { destruct (Z_le_gt_dec e e2) as [H|H]; [exact H|].
      destruct (above_below_excl energy_db threshold_db e);
        [apply Hrun; lia|apply Htail; lia]. }
    assert (e = e2) as ->.
    { destruct (Z.eq_dec e e2) as [H|H]; [exact H|].
      destruct Hend as [Hlast|Hb]; [lia|].
      destruct (above_below_excl energy_db threshold_db (e + 1));
        [apply Hrun2; lia|exact Hb]. }
    assert (s = s2) as ->; [|lia].
    destruct (Z.lt_total s s2) as [Hlt|[Heq|Hgt]]; [|exact Heq|].
    + destruct Hstart2 as [H0|Hb]; [lia|].
      destruct (above_below_excl energy_db threshold_db (s2 - 1));
        [apply Hrun; lia|exact Hb].
    + destruct Hstart as [H0|Hb]; [lia|].
      destruct (above_below_excl energy_db threshold_db (s - 1));
        [apply Hrun2; lia|exact Hb].
  - unfold scan_iter.
    replace (e2 >=? 0) with true by (symmetry; apply Z.geb_le; lia).
    rewrite (getitem_lookup _ e2 true);
      [|lia|apply classify_above, Hrun2; lia].
    simpl.
    rewrite (run_start_loop_found _ s2 e2); [|lia| |].
    + now replace (e2 - s2 + 1 >=? min_frames) with false
        by (symmetry; rewrite Z.geb_leb; apply Z.leb_gt; lia).
    + intros j Hj. apply classify_above, Hrun2. lia.
    + destruct Hstart2 as [->|Hb]; [now left|right].
      now apply classify_below.
Qed.

Lemma detect_speech_end_skips_short_trailing_run_witness :
  detect_speech_end [-10; -10; -10; -10; -60; -60; -5; -60]%Q 16000 160
    (-40)%Q 4
  = Ok (Some (end_ms 3 160 16000))
  /\ scan_iter (classify [-10; -10; -10; -10; -60; -60; -5; -60]%Q (-40)%Q)
       16000 160 4 6 = inl (6 - 1).
Proof.
  apply (detect_speech_end_skips_short_trailing_run
           [-10; -10; -10; -10; -60; -60; -5; -60]%Q 16000 160 (-40)%Q 4
           0 3 6 6).
  - lia.
  - split; [lia|]. split; [reflexivity|]. split; [|split].
    + intros j Hj. frame_range j 0 8%nat.
    + now left.
    + right. eexists; split; [reflexivity|discriminate].
  - lia.
  - split; [lia|]. split; [reflexivity|]. split; [|split].
    + intros j Hj. frame_range j 0 8%nat.
    + right. eexists; split; [reflexivity|discriminate].
    + right. eexists; split; [reflexivity|discriminate].
  - lia.
  - lia.
  - unfold len. simpl. intros j Hj. frame_range j 0 8%nat.
  - intros s e _ Hs He. lia.
Defined.

(** C5: the detector classifies with [classify]; a frame is marked as
    speech exactly when its energy is strictly greater than the
    threshold, and a frame whose energy equals the threshold is not; on a
    profile of one frame with [min_frames = 1] the frame is detected in
    the first case only. *)
Theorem detect_speech_end_classifies_strictly (energy_db : list Q)
    (threshold_db : Q) (j : nat) (e : Q) :
  energy_db !! j = Some e ->
  (classify energy_db threshold_db !! j = Some true
   <-> (threshold_db < e)%Q)
  /\ ((e == threshold_db)%Q ->
      classify energy_db threshold_db !! j = Some false)
  /\ (forall sr fl mf,
        detect_speech_end energy_db sr fl threshold_db mf =
        if len energy_db <? mf then Ok None
        else scan_loop (classify energy_db threshold_db) sr fl mf
               (len energy_db - 1))
  /\ (forall sr fl, sr <> 0 ->
        detect_speech_end [e] sr fl threshold_db 1 =
        if Qgtb e threshold_db then Ok (Some (end_ms 0 fl sr))
        else Ok None).
Proof.
  intros He. rewrite classify_lookup, He. simpl.
  split; [|split; [|split]].
  - rewrite <- Qgtb_lt. split; [now intros [= ->]|now intros ->].
  - intros Heq. f_equal. apply Qgtb_le. rewrite Heq. apply Qle_refl.
  - reflexivity.
  - intros sr fl Hsr. unfold detect_speech_end. simpl.
    destruct (Qgtb e threshold_db) eqn:Hgt.
    + rewrite (scan_loop_run _ _ _ _ 0 0); [|lia| |now left].
      * simpl. now rewrite truediv_ok.
      * intros k Hk. now replace k with 0 by lia.
    + rewrite (scan_loop_skip _ _ _ _ (-1) 0); [|lia|].
      * now apply scan_loop_neg.
      * intros k Hk. now replace k with 0 by lia.
Qed.

Lemma detect_speech_end_classifies_strictly_witness :
  (classify [-50; -40; -39]%Q (-40)%Q !! 1%nat = Some true
   <-> (-40 < -40)%Q)
  /\ classify [-50; -40; -39]%Q (-40)%Q !! 1%nat = Some false.
Proof.
  destruct (detect_speech_end_classifies_strictly
              [-50; -40; -39]%Q (-40)%Q 1%nat (-40)%Q eq_refl)
    as (Hiff & Heq & _).
  split; [exact Hiff|]. apply Heq. reflexivity.
Defined.

(** ** Termination of the reverse scan *)

(** C10: an iteration of the outer loop that does not leave the function
    strictly decreases the scan index, by one on a frame below the
    threshold and to one position before the start of the run on a
    rejected run; from index [i] the loop is left within [i + 2]
    evaluations of its body, the inner loop within [run_start + 1], and
    [detect_speech_end] returns the value the scan leaves with after at
    most [len(energy_db) + 1] evaluations. *)
Theorem detect_speech_end_terminates (energy_db : list Q)
    (sample_rate frame_length : Z) (threshold_db : Q) (min_frames : Z) :
  let above := classify energy_db threshold_db in
  let body := scan_iter above sample_rate frame_length min_frames in
  (forall i i', body i = inl i' ->
     0 <= i /\ -1 <= i' < i /\
     ((getitem above i = Ok false /\ i' = i - 1) \/
      (getitem above i = Ok true /\
       exists run_start,
         run_start_loop above i = Ok run_start /\
         i - run_start + 1 < min_frames /\ i' = run_start - 1)))
  /\ (forall i, -1 <= i ->
        iterate body (Z.to_nat (i + 2)) i
        = Some (scan_loop above sample_rate frame_length min_frames i))
  /\ (forall run_start, 0 <= run_start ->
        iterate (run_start_iter above) (Z.to_nat (run_start + 1)) run_start
        = Some (run_start_loop above run_start))
  /\ (min_frames <= len energy_db ->
        iterate body (S (length energy_db)) (len energy_db - 1)
        = Some (detect_speech_end energy_db sample_rate frame_length
                  threshold_db min_frames)).
Proof.
  intros above body. split; [|split; [|split]].
  - intros i i' Hb. pose proof (scan_iter_next _ _ _ _ _ _ Hb) as [Hi Hi'].
    split; [exact Hi|]. split; [exact Hi'|].
    unfold body, scan_iter in Hb.
    destruct (i >=? 0); [|discriminate].
    destruct (getitem above i) as [[|]|]; [| |discriminate]; simpl in Hb.
    + right. split; [reflexivity|].
      destruct (run_start_loop above i) as [rs|]; [|discriminate].
      destruct (i - rs + 1 >=? min_frames) eqn:Hlen; [discriminate|].
      injection Hb as <-. exists rs. split; [reflexivity|].
      rewrite Z.geb_leb in Hlen. apply Z.leb_gt in Hlen. lia.
    + left. split; [reflexivity|]. now injection Hb as <-.
  - intros i Hi. apply iterate_while. lia.
  - intros rs Hrs. apply iterate_while. lia.
  - intros Hlen. unfold detect_speech_end.
    replace (len energy_db <? min_frames) with false
      by (symmetry; apply Z.ltb_ge; lia).
    apply iterate_while. unfold len. lia.
Qed.

Lemma detect_speech_end_terminates_witness :
  0 <= 6 /\ -1 <= 5 < 6 /\
  iterate (scan_iter (classify [-10; -10; -10; -10; -60; -60; -5; -60]%Q
                        (-40)%Q) 16000 160 4) 9 7
  = Some (Ok (Some (end_ms 3 160 16000))).
Proof.
  pose proof (detect_speech_end_terminates
                [-10; -10; -10; -10; -60; -60; -5; -60]%Q 16000 160
                (-40)%Q 4) as (Hstep & _ & _ & Hfun).
  destruct (Hstep 6 5 eq_refl) as (H0 & Hlt & _).
  split; [exact H0|]. split; [exact Hlt|].
  etransitivity; [exact (Hfun ltac:(unfold len; simpl; lia))|].
  vm_compute. reflexivity.
Defined.

(** ** Length of the energy profile *)

Lemma length_correlate_valid (a v : list Q) :
  (0 < length v)%nat ->
  length (correlate_valid a v) = (S (length a) - length v)%nat.
Proof.
  intros Hv. induction a as [|x a IH]; simpl.
  - lia.
  - destruct (length v <=? S (length a))%nat eqn:Hle.
    + apply Nat.leb_le in Hle. simpl. rewrite IH. lia.
    + apply Nat.leb_gt in Hle. simpl. lia.
Qed.

Lemma np_convolve_valid_length (a v : list Q) :
  0 < len a -> 0 < len v ->
  exists c, np_convolve_valid a v = Ok c /\
            len c = Z.max (len a) (len v) - Z.min (len a) (len v) + 1.
Proof.
  unfold np_convolve_valid, len. intros Ha Hv.
  destruct (Z.of_nat (length a) <? Z.of_nat (length v)) eqn:Hswap.
  - apply Z.ltb_lt in Hswap.
    replace (Z.of_nat (length v) =? 0) with false
      by (symmetry; apply Z.eqb_neq; lia).
    replace (Z.of_nat (length a) =? 0) with false
      by (symmetry; apply Z.eqb_neq; lia).
    eexists. split; [reflexivity|].
    rewrite length_correlate_valid; rewrite length_rev; lia.
  - apply Z.ltb_ge in Hswap.
    replace (Z.of_nat (length a) =? 0) with false
      by (symmetry; apply Z.eqb_neq; lia).
    replace (Z.of_nat (length v) =? 0) with false
      by (symmetry; apply Z.eqb_neq; lia).
    eexists. split; [reflexivity|].
    rewrite length_correlate_valid; rewrite length_rev; lia.
Qed.

Lemma len_window (frame_length : Z) :
  0 <= frame_length ->
  len (map (fun o => (o / inject_Z frame_length)%Q) (np_ones frame_length))
  = frame_length.
Proof.
  intros Hfl. unfold len, np_ones.
  rewrite length_map, length_replicate. lia.
Qed.

(** The profile of a non-empty signal: numpy's "valid" length, which is
    symmetric in the signal and the window. *)
Lemma rolling_energy_db_length (log10 : Q -> Q) (signal : list Q)
    (sample_rate : Z) (frame_ms : Q) :
  let frame_length :=
    Z.max 1 (py_round (inject_Z sample_rate * frame_ms / 1000)%Q) in
  0 < len signal ->
  exists energy_db,
    rolling_energy_db log10 signal sample_rate frame_ms
    = Ok (energy_db, frame_length) /\
    len energy_db = Z.max (len signal) frame_length
                    - Z.min (len signal) frame_length + 1.
Proof.
  intros fl Hsig. unfold rolling_energy_db. fold fl.
  destruct (np_convolve_valid_length
              (map (fun x => (x * x)%Q) signal)
              (map (fun o => (o / inject_Z fl)%Q) (np_ones fl)))
    as (c & Hc & Hlen).
  - unfold len. rewrite length_map. exact Hsig.
  - rewrite len_window; unfold fl; lia.
  - rewrite Hc. simpl. eexists. split; [reflexivity|].
    rewrite len_window in Hlen by (unfold fl; lia).
    unfold len in *. rewrite length_map in *. exact Hlen.
Qed.

(** C2: the length of the profile in the three cases of the signal's
    length. An empty signal makes [np.convolve] raise; a non-empty signal
    shorter than the frame gives [frame_length - len(signal) + 1] entries,
    at least two, and not the empty profile; from [frame_length] samples
    on the profile has [len(signal) - frame_length + 1] entries. *)
Theorem rolling_energy_db_profile_length (log10 : Q -> Q)
    (signal : list Q) (sample_rate : Z) (frame_ms : Q) :
  let frame_length :=
    Z.max 1 (py_round (inject_Z sample_rate * frame_ms / 1000)%Q) in
  (signal = [] ->
   rolling_energy_db log10 signal sample_rate frame_ms
   = Raise (ValueError "v cannot be empty"))
  /\ (0 < len signal < frame_length ->
      exists energy_db,
        rolling_energy_db log10 signal sample_rate frame_ms
        = Ok (energy_db, frame_length) /\
        len energy_db = frame_length - len signal + 1 /\
        2 <= len energy_db)
  /\ (frame_length <= len signal ->
      exists energy_db,
        rolling_energy_db log10 signal sample_rate frame_ms
        = Ok (energy_db, frame_length) /\
        len energy_db = len signal - frame_length + 1).
Proof.
  intros fl. split; [|split].
  - intros ->. unfold rolling_energy_db, np_convolve_valid. fold fl.
    rewrite len_window by (unfold fl; lia). simpl.
    replace (len [] <? fl) with true
      by (symmetry; apply Z.ltb_lt; unfold len, fl; simpl; lia).
    rewrite len_window by (unfold fl; lia).
    replace (fl =? 0) with false
      by (symmetry; apply Z.eqb_neq; unfold fl; lia).
    reflexivity.
  - intros Hshort.
    destruct (rolling_energy_db_length log10 signal sample_rate frame_ms)
      as (p & Hp & Hlen); [lia|].
    exists p. fold fl in Hp, Hlen. split; [exact Hp|]. lia.
  - intros Hlong.
    destruct (rolling_energy_db_length log10 signal sample_rate frame_ms)
      as (p & Hp & Hlen); [unfold fl in Hlong; lia|].
    exists p. fold fl in Hp, Hlen. split; [exact Hp|]. lia.
Qed.

Lemma rolling_energy_db_profile_length_witness :
  exists energy_db,
    rolling_energy_db log10_floor [1%Q] 16000 10 = Ok (energy_db, 160) /\
    len energy_db = 160 - len [1%Q] + 1 /\ 2 <= len energy_db.
Proof.
  apply (proj1 (proj2 (rolling_energy_db_profile_length
                         log10_floor [1%Q] 16000 10))).
  unfold len. simpl. vm_compute. split; reflexivity.
Defined.

(** ** A signal shorter than one frame *)

Lemma dot_replicate (c : Q) (v : list Q) (k : nat) :
  (length v <= k)%nat ->
  dot (replicate k c) v = dot (replicate (length v) c) v.
Proof.
  revert k. induction v as [|y v IH]; intros k Hk.
  - destruct k; reflexivity.
  - destruct k as [|k]; [simpl in Hk; lia|].
    simpl. rewrite (IH k) by (simpl in Hk; lia). reflexivity.
Qed.

(** Every position of a window of equal weights sees the same sum. *)
Lemma correlate_valid_replicate (c : Q) (v : list Q) (n : nat) :
  (0 < length v)%nat ->
  correlate_valid (replicate n c) v
  = replicate (S n - length v) (dot (replicate (length v) c) v).
Proof.
  intros Hv. induction n as [|n IH].
  - simpl. now replace (1 - length v)%nat with 0%nat by lia.
  - change (replicate (S n) c) with (c :: replicate n c).
    unfold correlate_valid; fold correlate_valid.
    change (c :: replicate n c) with (replicate (S n) c).
    rewrite length_replicate.
    destruct (length v <=? S n)%nat eqn:Hle.
    + apply Nat.leb_le in Hle.
      rewrite dot_replicate by (rewrite ?length_replicate; lia).
      rewrite IH.
      now replace (S (S n) - length v)%nat with (S (S n - length v)) by lia.
    + apply Nat.leb_gt in Hle.
      now replace (S (S n) - length v)%nat with 0%nat by lia.
Qed.

Lemma detect_speech_end_all_above (energy_db : list Q)
    (sample_rate frame_length : Z) (threshold_db : Q) (min_frames : Z) :
  sample_rate <> 0 ->
  0 < len energy_db ->
  min_frames <= len energy_db ->
  (forall j, 0 <= j < len energy_db ->
             above_threshold energy_db threshold_db j) ->
  detect_speech_end energy_db sample_rate frame_length threshold_db
    min_frames
  = Ok (Some (end_ms (len energy_db - 1) frame_length sample_rate)).
Proof.
  intros Hsr Hpos Hmf Habove. unfold detect_speech_end.
  replace (len energy_db <? min_frames) with false
    by (symmetry; apply Z.ltb_ge; lia).
  cbv zeta.
  rewrite (scan_loop_maximal_run energy_db threshold_db _ _ _ 0).
  - replace (len energy_db - 1 - 0 + 1 >=? min_frames) with true
      by (symmetry; apply Z.geb_le; lia).
    now rewrite truediv_ok.
  - split; [lia|]. split; [lia|]. split; [|split].
    + intros j Hj. apply Habove. lia.
    + now left.
    + now left.
Qed.

(** C3: a non-empty signal shorter than one frame does not give an empty
    profile. The profile has [frame_length - len(signal) + 1] entries, all
    equal to the level of the whole signal spread over one window; when
    that level is above the threshold and [min_frames] is at most the
    number of entries, the detector returns a timestamp, and that
    timestamp lies after the end of the signal. *)
Theorem short_signal_profile_and_detection (log10 : Q -> Q)
    (signal : list Q) (sample_rate : Z) (frame_ms threshold_db : Q)
    (min_frames : Z) :
  let frame_length :=
    Z.max 1 (py_round (inject_Z sample_rate * frame_ms / 1000)%Q) in
  let power :=
    dot (replicate (length signal) (1 / inject_Z frame_length)%Q)
        (rev (map (fun x => (x * x)%Q) signal)) in
  let level := (10 * log10 (Qmax power (1 # 1000000000000)))%Q in
  0 < len signal < frame_length ->
  0 < sample_rate ->
  min_frames <= frame_length - len signal + 1 ->
  (threshold_db < level)%Q ->
  exists energy_db,
    rolling_energy_db log10 signal sample_rate frame_ms
    = Ok (energy_db, frame_length) /\
    len energy_db = frame_length - len signal + 1 /\
    detect_speech_end energy_db sample_rate frame_length threshold_db
      min_frames
    = Ok (Some (end_ms (frame_length - len signal) frame_length
                  sample_rate)) /\
    (inject_Z (len signal) / inject_Z sample_rate * 1000
     < end_ms (frame_length - len signal) frame_length sample_rate)%Q.
Proof.
  intros fl power level Hlen Hsr Hmf Hlevel.
  set (k := Z.to_nat (fl - len signal + 1)).
  assert (Hroll : rolling_energy_db log10 signal sample_rate frame_ms
                  = Ok (replicate k level, fl)).
  { unfold rolling_energy_db, np_convolve_valid. fold fl.
    replace (len (map (fun x => (x * x)%Q) signal) <?
             len (map (fun o => (o / inject_Z fl)%Q) (np_ones fl)))
      with true.
    2:{ symmetry. apply Z.ltb_lt. rewrite len_window by lia.
        unfold len in *. rewrite length_map. lia. }
    rewrite len_window by lia.
    replace (fl =? 0) with false by (symmetry; apply Z.eqb_neq; lia).
    replace (len (map (fun x => (x * x)%Q) signal) =? 0) with false.
    2:{ symmetry. apply Z.eqb_neq. unfold len in *.
        rewrite length_map. lia. }
    unfold np_ones.
    change (map (fun o => (o / inject_Z fl)%Q) (replicate (Z.to_nat fl) 1%Q))
      with ((fun o => (o / inject_Z fl)%Q) <$> replicate (Z.to_nat fl) 1%Q).
    rewrite fmap_replicate, correlate_valid_replicate.
    2:{ rewrite length_rev, length_map. unfold len in Hlen. lia. }
    rewrite length_rev, length_map. simpl.
    change (map ?f (replicate ?n ?x)) with (f <$> replicate n x).
    rewrite fmap_replicate. unfold level, power.
    do 3 f_equal. unfold k, len. lia. }
  assert (Hk : len (replicate k level) = fl - len signal + 1).
  { unfold k, len. rewrite length_replicate. unfold len in Hlen. lia. }
  exists (replicate k level). split; [exact Hroll|]. split; [exact Hk|].
  split.
  - rewrite (detect_speech_end_all_above _ _ _ _ _); try lia.
    + rewrite Hk. do 3 f_equal. lia.
    + intros j Hj. exists level. split; [|exact Hlevel].
      apply lookup_replicate_2. unfold len in Hj.
      rewrite length_replicate in Hj. lia.
  - unfold end_ms.
    apply Qmult_lt_compat_r; [reflexivity|].
    unfold Qdiv. apply Qmult_lt_compat_r.
    + apply Qinv_lt_0_compat. rewrite <- (Zlt_Qlt 0). exact Hsr.
    + rewrite <- Zlt_Qlt. lia.
Qed.

Lemma short_signal_profile_and_detection_witness :
  exists energy_db,
    rolling_energy_db log10_floor [1%Q] 16000 10 = Ok (energy_db, 160) /\
    len energy_db = 160 - len [1%Q] + 1 /\
    detect_speech_end energy_db 16000 160 THRESHOLD_DB MIN_FRAMES
    = Ok (Some (end_ms (160 - len [1%Q]) 160 16000)) /\
    (inject_Z (len [1%Q]) / inject_Z 16000 * 1000
     < end_ms (160 - len [1%Q]) 160 16000)%Q.
Proof.
  apply (short_signal_profile_and_detection
           log10_floor [1%Q] 16000 10 THRESHOLD_DB MIN_FRAMES).
  - unfold len. simpl. vm_compute. split; reflexivity.
  - lia.
  - vm_compute. discriminate.
  - vm_compute. reflexivity.
Defined.

(** ** Range of the detected timestamp *)

(** A timestamp returned by the scan is the end of a frame at or before
    the index the scan is entered with. *)
Lemma scan_loop_result (above : list bool) (sr fl mf i : Z) (t : Q) :
  scan_loop above sr fl mf i = Ok (Some t) ->
  exists run_end, 0 <= run_end <= i /\ sr <> 0 /\ t = end_ms run_end fl sr.
Proof.
  unfold scan_loop. revert t.
  apply (while_rule (scan_iter above sr fl mf)
           (fun i => Z.to_nat (i + 1))
           (scan_iter_decreases above sr fl mf)
           (fun i r => forall t, r = Ok (Some t) ->
              exists run_end,
                0 <= run_end <= i /\ sr <> 0 /\ t = end_ms run_end fl sr)).
  - intros s r. unfold scan_iter.
    destruct (s >=? 0) eqn:Hs; [|intros [= <-] t [=]].
    apply Z.geb_le in Hs.
    destruct (getitem above s) as [b|]; [|intros [= <-] t [=]].
    destruct (negb b); [discriminate|].
    destruct (run_start_loop above s) as [rs|]; [|intros [= <-] t [=]].
    destruct (s - rs + 1 >=? mf); [|discriminate].
    unfold truediv. destruct (sr =? 0) eqn:Hsr; [intros [= <-] t [=]|].
    apply Z.eqb_neq in Hsr. simpl. intros [= <-] t [= <-].
    exists s. split; [lia|]. split; [exact Hsr|reflexivity].
  - intros s s' Hnext IH t Ht.
    apply scan_iter_next in Hnext.
    destruct (IH t Ht) as (e & He & Hsr & ->).
    exists e. split; [lia|]. split; [exact Hsr|reflexivity].
Qed.

Lemma end_ms_bounds (run_end frame_length sample_rate total : Z) :
  0 < sample_rate ->
  0 <= run_end + frame_length <= total ->
  (0 <= end_ms run_end frame_length sample_rate
   <= inject_Z total / inject_Z sample_rate * 1000)%Q.
Proof.
  intros Hsr Hrange. unfold end_ms, Qdiv.
  assert (Hinv : (0 <= / inject_Z sample_rate)%Q).
  { apply Qinv_le_0_compat. rewrite <- (Zle_Qle 0). lia. }
  split.
  - apply Qmult_le_0_compat; [|discriminate].
    apply Qmult_le_0_compat; [|exact Hinv].
    rewrite <- (Zle_Qle 0). lia.
  - apply Qmult_le_compat_r; [|discriminate].
    apply Qmult_le_compat_r; [|exact Hinv].
    rewrite <- Zle_Qle. lia.
Qed.

(** C9: on the profile of a signal of at least [frame_length] samples and
    with a positive sample rate, a timestamp returned by the detector is
    non-negative and at most the duration of the signal,
    [len(signal) / sample_rate * 1000]. *)
Theorem detect_speech_end_within_signal (log10 : Q -> Q)
    (signal energy_db : list Q) (sample_rate frame_length : Z)
    (frame_ms threshold_db : Q) (min_frames : Z) (t : Q) :
  0 < sample_rate ->
  rolling_energy_db log10 signal sample_rate frame_ms
  = Ok (energy_db, frame_length) ->
  frame_length <= len signal ->
  detect_speech_end energy_db sample_rate frame_length threshold_db
    min_frames = Ok (Some t) ->
  (0 <= t <= inject_Z (len signal) / inject_Z sample_rate * 1000)%Q.
Proof.
  intros Hsr Hroll Hfl Hdet.
  destruct (rolling_energy_db_length log10 signal sample_rate frame_ms)
    as (p & Hp & Hlen).
  { assert (1 <= frame_length); [|lia].
    unfold rolling_energy_db in Hroll.
    destruct (np_convolve_valid _ _); [|discriminate].
    simpl in Hroll. injection Hroll as _ <-. lia. }
  rewrite Hp in Hroll. injection Hroll as -> Hfl'.
  rewrite Hfl' in Hlen.
  unfold detect_speech_end in Hdet.
  destruct (len energy_db <? min_frames); [discriminate|].
  cbv zeta in Hdet.
  apply scan_loop_result in Hdet as (e & He & _ & ->).
  apply end_ms_bounds; [exact Hsr|]. lia.
Qed.

Lemma detect_speech_end_within_signal_witness :
  (0 <= end_ms 4 2 200 <= inject_Z (len [1; 1; 1; 1; 1; 0; 0]%Q)
                          / inject_Z 200 * 1000)%Q.
Proof.
  apply (detect_speech_end_within_signal log10_floor
           [1; 1; 1; 1; 1; 0; 0]%Q
           [0; 0; 0; 0; -10; -120]%Q 200 2 10 THRESHOLD_DB MIN_FRAMES).
  - lia.
  - vm_compute. reflexivity.
  - vm_compute. discriminate.
  - vm_compute. reflexivity.
Defined.

(** ** Batch pipeline *)

(** C7: when the detector returns "not found" for a decoded file, the
    body of the loop both stores the full duration of the signal,
    [len(samples) / sr * 1000] rounded to one decimal, under the key of the
    file and appends the warning of that key to [errors]; the other keys
    keep their values. *)
Theorem main_file_not_found (log10 : Q -> Q) (key : string)
    (samples energy_db : list Q) (sr frame_length : Z) (st : state) :
  sr <> 0 ->
  rolling_energy_db log10 samples sr FRAME_MS
  = Ok (energy_db, frame_length) ->
  detect_speech_end energy_db sr frame_length THRESHOLD_DB MIN_FRAMES
  = Ok None ->
  let total_ms := (inject_Z (len samples) / inject_Z sr * 1000)%Q in
  let st' := main_file log10 key (Ok (samples, sr)) st in
  st' = State (<[key := round1 total_ms]> (durations st))
              (errors st ++ [key +:+ ": no speech detected"])
  /\ durations st' !! key = Some (round1 total_ms)
  /\ errors st' = errors st ++ [key +:+ ": no speech detected"]
  /\ (forall k, k <> key -> durations st' !! k = durations st !! k).
Proof.
  intros Hsr Hroll Hdet total_ms st'.
  assert (Hst : st' = State (<[key := round1 total_ms]> (durations st))
                        (errors st ++ [key +:+ ": no speech detected"])).
  { unfold st', main_file, main_try. simpl.
    rewrite truediv_ok by exact Hsr. simpl.
    rewrite Hroll. simpl. rewrite Hdet. reflexivity. }
  split; [exact Hst|]. rewrite Hst. simpl.
  split; [apply lookup_insert_eq|]. split; [reflexivity|].
  intros k Hk. now apply lookup_insert_ne.
Qed.

Lemma main_file_not_found_witness :
  let st' := main_file log10_floor "male_casa"
               (Ok (replicate 50 0%Q, 100)) (State ∅ []) in
  durations st' !! "male_casa" = Some (round1 (50 / 100 * 1000))
  /\ errors st' = ["male_casa: no speech detected"].
Proof.
  destruct (main_file_not_found log10_floor "male_casa"
              (replicate 50 0%Q) (replicate 50 (-120)%Q) 100 1
              (State ∅ []))
    as (_ & Hdur & Herr & _).
  - lia.
  - vm_compute. reflexivity.
  - vm_compute. reflexivity.
  - split; [exact Hdur|exact Herr].
Defined.

Lemma main_file_errors (log10 : Q -> Q) (key : string)
    (decoded : result (list Q * Z)) :
  exists es, forall st,
    errors (main_file log10 key decoded st) = errors st ++ es.
Proof.
  unfold main_file.
  destruct (main_try log10 decoded) as [[total_ms [end_ms|]]|e].
  - exists []. intros st. simpl. now rewrite app_nil_r.
  - eexists. intros st. reflexivity.
  - eexists. intros st. reflexivity.
Qed.

Lemma main_loop_errors (log10 : Q -> Q)
    (corpus : list (string * result (list Q * Z))) :
  exists es, forall st,
    errors (main_loop log10 corpus st) = errors st ++ es.
Proof.
  induction corpus as [|[key decoded] corpus (es & IH)].
  - exists []. intros st. simpl. now rewrite app_nil_r.
  - destruct (main_file_errors log10 key decoded) as (es1 & H1).
    exists (es1 ++ es). intros st. unfold main_loop in *. simpl.
    rewrite IH, H1. now rewrite app_assoc.
Qed.

Lemma main_loop_durations (log10 : Q -> Q)
    (corpus : list (string * result (list Q * Z))) (st1 st2 : state) :
  durations st1 = durations st2 ->
  durations (main_loop log10 corpus st1)
  = durations (main_loop log10 corpus st2).
Proof.
  revert st1 st2.
  induction corpus as [|[key decoded] corpus IH]; intros st1 st2 Heq.
  - exact Heq.
  - unfold main_loop in *. simpl. apply IH. unfold main_file.
    destruct (main_try log10 decoded) as [[total_ms [end_ms|]]|e];
      simpl; now rewrite Heq.
Qed.

Lemma main_loop_app (log10 : Q -> Q)
    (pre post : list (string * result (list Q * Z))) (st : state) :
  main_loop log10 (pre ++ post) st
  = main_loop log10 post (main_loop log10 pre st).
Proof. unfold main_loop. apply fold_left_app. Qed.

(** C8: a file whose decoding or framing raises leaves [durations] as it
    was and adds one entry with its key to [errors]; the files after it
    are processed as if it had not been there, so the run ends with the
    durations of the corpus without that file and with the errors of that
    corpus plus the one entry, in its place. *)
Theorem main_isolates_failure (log10 : Q -> Q)
    (pre post : list (string * result (list Q * Z)))
    (key : string) (decoded : result (list Q * Z)) (e : exn) :
  main_try log10 decoded = Raise e ->
  (forall st, main_file log10 key decoded st
              = State (durations st)
                      (errors st ++ [key +:+ ": " +:+ str e]))
  /\ durations (main log10 (pre ++ (key, decoded) :: post))
     = durations (main log10 (pre ++ post))
  /\ exists es,
       errors (main log10 (pre ++ post))
       = errors (main log10 pre) ++ es /\
       errors (main log10 (pre ++ (key, decoded) :: post))
       = errors (main log10 pre) ++ [key +:+ ": " +:+ str e] ++ es.
Proof.
  intros Hraise.
  assert (Hfile : forall st, main_file log10 key decoded st
                    = State (durations st)
                            (errors st ++ [key +:+ ": " +:+ str e])).
  { intros st. unfold main_file. now rewrite Hraise. }
  split; [exact Hfile|]. unfold main.
  rewrite !main_loop_app.
  change (main_loop log10 ((key, decoded) :: post) ?st)
    with (main_loop log10 post (main_file log10 key decoded st)).
  rewrite Hfile. split.
  - now apply main_loop_durations.
  - destruct (main_loop_errors log10 post) as (es & Hes).
    exists es. rewrite !Hes. split; [reflexivity|].
    simpl. now rewrite <- app_assoc.
Qed.

Lemma main_isolates_failure_witness :
  durations
    (main log10_floor
       ([("male_casa", Ok (replicate 50 0%Q, 100))] ++
        ("male_gato", Ok ([], 16000)) ::
        [("male_perro", Ok ([1; 1; 1; 1; 1; 0; 0]%Q, 200))]))
  = durations
      (main log10_floor
         ([("male_casa", Ok (replicate 50 0%Q, 100))] ++
          [("male_perro", Ok ([1; 1; 1; 1; 1; 0; 0]%Q, 200))])).
Proof.
  apply (proj1 (proj2 (main_isolates_failure log10_floor
                         [("male_casa", Ok (replicate 50 0%Q, 100))]
                         [("male_perro", Ok ([1; 1; 1; 1; 1; 0; 0]%Q, 200))]
                         "male_gato" (Ok ([], 16000))
                         (ValueError "v cannot be empty") eq_refl))).
Defined.

(** * Further properties of the detector *)

(** Two runs that share a frame are the same run. *)
Lemma maximal_run_unique (energy_db : list Q) (threshold_db : Q)
    (s e s' e' j : Z) :
  maximal_run energy_db threshold_db s e ->
  maximal_run energy_db threshold_db s' e' ->
  s <= j <= e -> s' <= j <= e' ->
  s = s' /\ e = e'.
Proof.
  intros (Hse & He & Hrun & Hstart & Hend)
         (Hse' & He' & Hrun' & Hstart' & Hend') Hj Hj'.
  assert (Hs : s = s').
  { destruct (Z.lt_total s s') as [Hlt|[Heq|Hgt]]; [|exact Heq|].
    - destruct Hstart' as [H0|Hb]; [lia|].
      destruct (above_below_excl energy_db threshold_db (s' - 1));
        [apply Hrun; lia|exact Hb].
    - destruct Hstart as [H0|Hb]; [lia|].
      destruct (above_below_excl energy_db threshold_db (s - 1));
        [apply Hrun'; lia|exact Hb]. }
  split; [exact Hs|].
  destruct (Z.lt_total e e') as [Hlt|[Heq|Hgt]]; [|exact Heq|].
  - destruct Hend as [Hlast|Hb]; [lia|].
    destruct (above_below_excl energy_db threshold_db (e + 1));
      [apply Hrun'; lia|exact Hb].
  - destruct Hend' as [Hlast|Hb]; [lia|].
    destruct (above_below_excl energy_db threshold_db (e' + 1));
      [apply Hrun; lia|exact Hb].
Qed.

(** What the scan computes: entered at [i], on a frame that is not inside
    a run cut on its right, it leaves with "not found" when every run that
    ends at or before [i] is shorter than [min_frames], and otherwise with
    the end of the last run of at least [min_frames] frames. *)
Lemma scan_loop_spec (energy_db : list Q) (threshold_db : Q)
    (sr fl mf : Z) (i : Z) :
  -1 <= i < len energy_db ->
  (i = -1 \/ i = len energy_db - 1 \/
   below_threshold energy_db threshold_db (i + 1) \/
   below_threshold energy_db threshold_db i) ->
  (scan_loop (classify energy_db threshold_db) sr fl mf i = Ok None /\
   forall s e, maximal_run energy_db threshold_db s e -> e <= i ->
               e - s + 1 < mf)
  \/ (exists s e,
        maximal_run energy_db threshold_db s e /\ e <= i /\
        mf <= e - s + 1 /\
        (forall s' e', maximal_run energy_db threshold_db s' e' ->
                       e < s' -> e' <= i -> e' - s' + 1 < mf) /\
        scan_loop (classify energy_db threshold_db) sr fl mf i
        = (q ← truediv (e + fl) sr; Ok (Some (q * 1000)%Q))).
Proof.
  remember (Z.to_nat (i + 1)) as d eqn:Hd. revert i Hd.
  induction d as [d IH] using lt_wf_ind. intros i Hd Hi Hcut.
  destruct (Z.eq_dec i (-1)) as [->|Hne].
  { left. split; [now apply scan_loop_neg|].
    intros s e (Hse & _) He. lia. }
  destruct (above_or_below energy_db threshold_db i) as [Ha|Hb]; [lia| |].
  - destruct (run_start_exists energy_db threshold_db i)
      as (s & Hs & Hrun & Hstart); [lia|exact Ha|].
    assert (Hmax : maximal_run energy_db threshold_db s i).
    { split; [lia|]. split; [lia|]. split; [exact Hrun|].
      split; [exact Hstart|].
      destruct Hcut as [H|[->|[Hb|Hb]]]; [lia|now left|now right|].
      destruct (above_below_excl _ _ _ Ha Hb). }
    pose proof (scan_loop_maximal_run energy_db threshold_db sr fl mf s i
                  Hmax) as Hscan.
    destruct (i - s + 1 >=? mf) eqn:Hq.
    + apply Z.geb_le in Hq. right. exists s, i.
      split; [exact Hmax|]. split; [lia|]. split; [lia|].
      split; [|exact Hscan].
      intros s' e' (Hse' & _) Hlt Hle. lia.
    + rewrite Z.geb_leb in Hq. apply Z.leb_gt in Hq.
      assert (Hold : forall s' e',
                 maximal_run energy_db threshold_db s' e' ->
                 s - 1 < e' <= i -> e' - s' + 1 < mf).
      { intros s' e' Hmax' He'.
        destruct (maximal_run_unique energy_db threshold_db s i s' e' e'
                    Hmax Hmax') as [<- <-]; [lia| |lia].
        destruct Hmax' as (Hse' & _). lia. }
      destruct (IH (Z.to_nat (s - 1 + 1)) ltac:(lia) (s - 1) eq_refl)
        as [[Hnone Hall]|(s0 & e0 & Hmax0 & He0 & Hq0 & Hlater & Hres)].
      * lia.
      * destruct Hstart as [->|Hb]; [now left|]. right. right. now right.
      * left. split; [now rewrite Hscan|].
        intros s' e' Hmax' He'.
        destruct (Z_le_gt_dec e' (s - 1)) as [Hle|Hgt];
          [now apply Hall|apply (Hold s' e' Hmax'); lia].
      * right. exists s0, e0. split; [exact Hmax0|]. split; [lia|].
        split; [exact Hq0|]. split; [|now rewrite Hscan].
        intros s' e' Hmax' Hlt He'.
        destruct (Z_le_gt_dec e' (s - 1)) as [Hle|Hgt];
          [now apply Hlater|apply (Hold s' e' Hmax'); lia].
  - rewrite (scan_loop_skip _ _ _ _ (i - 1)); [|lia|].
    2:{ intros j Hj. replace j with i by lia. now apply classify_below. }
    assert (Hnot : forall s e, maximal_run energy_db threshold_db s e ->
                     e <= i -> e <= i - 1).
    { intros s e (Hse & _ & Hrun & _) He.
      destruct (Z.eq_dec e i) as [->|Hn]; [|lia].
      destruct (above_below_excl energy_db threshold_db i);
        [apply Hrun; lia|exact Hb]. }
    destruct (IH (Z.to_nat (i - 1 + 1)) ltac:(lia) (i - 1) eq_refl)
      as [[Hnone Hall]|(s0 & e0 & Hmax0 & He0 & Hq0 & Hlater & Hres)].
    + lia.
    + right. right. left. now replace (i - 1 + 1) with i by lia.
    + left. split; [exact Hnone|].
      intros s e Hmax He. apply (Hall s e Hmax). now apply (Hnot s e).
    + right. exists s0, e0. split; [exact Hmax0|]. split; [lia|].
      split; [exact Hq0|]. split; [|exact Hres].
      intros s' e' Hmax' Hlt He'. apply (Hlater s' e' Hmax' Hlt).
      now apply (Hnot s' e').
Qed.

Lemma maximal_run_length (energy_db : list Q) (threshold_db : Q) (s e : Z) :
  maximal_run energy_db threshold_db s e -> e - s + 1 <= len energy_db.
Proof. intros (Hse & He & _). lia. Qed.

(** What the detector computes, in terms of the runs of the profile. *)
Lemma detect_speech_end_spec (energy_db : list Q)
    (sample_rate frame_length : Z) (threshold_db : Q) (min_frames : Z) :
  (detect_speech_end energy_db sample_rate frame_length threshold_db
     min_frames = Ok None /\
   forall s e, maximal_run energy_db threshold_db s e ->
               e - s + 1 < min_frames)
  \/ (exists s e,
        maximal_run energy_db threshold_db s e /\
        min_frames <= e - s + 1 /\
        (forall s' e', maximal_run energy_db threshold_db s' e' ->
                       e < s' -> e' - s' + 1 < min_frames) /\
        detect_speech_end energy_db sample_rate frame_length threshold_db
          min_frames
        = (q ← truediv (e + frame_length) sample_rate;
           Ok (Some (q * 1000)%Q))).
Proof.
  unfold detect_speech_end.
  destruct (len energy_db <? min_frames) eqn:Hn.
  - apply Z.ltb_lt in Hn. left. split; [reflexivity|].
    intros s e Hmax. apply maximal_run_length in Hmax. lia.
  - cbv zeta.
    destruct (scan_loop_spec energy_db threshold_db sample_rate
                frame_length min_frames (len energy_db - 1))
      as [[Hnone Hall]|(s & e & Hmax & He & Hq & Hlater & Hres)].
    + unfold len. lia.
    + right. now left.
    + left. split; [exact Hnone|]. intros s e Hmax.
      apply (Hall s e Hmax). destruct Hmax as (_ & He & _). lia.
    + right. exists s, e. split; [exact Hmax|]. split; [exact Hq|].
      split; [|exact Hres]. intros s' e' Hmax' Hlt.
      apply (Hlater s' e' Hmax' Hlt). destruct Hmax' as (_ & He' & _). lia.
Qed.



(** X2: a timestamp returned by the detector is the end of a run of at
    least [min_frames] frames, and every run after that one is shorter
    than [min_frames]. *)
Theorem detect_speech_end_sound (energy_db : list Q)
    (sample_rate frame_length : Z) (threshold_db : Q) (min_frames : Z)
    (t : Q) :
  detect_speech_end energy_db sample_rate frame_length threshold_db
    min_frames = Ok (Some t) ->
  exists s e,
    maximal_run energy_db threshold_db s e /\
    min_frames <= e - s + 1 /\
    (forall s' e', maximal_run energy_db threshold_db s' e' ->
                   e < s' -> e' - s' + 1 < min_frames) /\
    t = end_ms e frame_length sample_rate.
Proof.
  destruct (detect_speech_end_spec energy_db sample_rate frame_length
              threshold_db min_frames)
    as [[-> _]|(s & e & Hmax & Hq & Hlater & ->)]; [discriminate|].
  unfold truediv. destruct (sample_rate =? 0); [discriminate|].
  simpl. intros [= <-]. exists s, e.
  split; [exact Hmax|]. split; [exact Hq|]. split; [exact Hlater|].
  reflexivity.
Qed.

Lemma detect_speech_end_sound_witness :
  exists s e,
    maximal_run [-10; -10; -10; -10; -60; -5; -60]%Q (-40)%Q s e /\
    4 <= e - s + 1 /\
    (forall s' e',
       maximal_run [-10; -10; -10; -10; -60; -5; -60]%Q (-40)%Q s' e' ->
       e < s' -> e' - s' + 1 < 4) /\
    end_ms 3 160 16000 = end_ms e 160 16000.
Proof.
  apply (detect_speech_end_sound
           [-10; -10; -10; -10; -60; -5; -60]%Q 16000 160 (-40)%Q 4).
  vm_compute. reflexivity.
Defined.

(** X3: the detector returns "not found" exactly when every run of the
    profile is shorter than [min_frames]. *)
Theorem detect_speech_end_none_iff (energy_db : list Q)
    (sample_rate frame_length : Z) (threshold_db : Q) (min_frames : Z) :
  detect_speech_end energy_db sample_rate frame_length threshold_db
    min_frames = Ok None
  <-> (forall s e, maximal_run energy_db threshold_db s e ->
                   e - s + 1 < min_frames).
Proof.
  destruct (detect_speech_end_spec energy_db sample_rate frame_length
              threshold_db min_frames)
    as [[Hnone Hall]|(s & e & Hmax & Hq & _ & Hres)].
  - split; [intros _; exact Hall|intros _; exact Hnone].
  - split.
    + rewrite Hres. unfold truediv.
      destruct (sample_rate =? 0); discriminate.
    + intros Hall. specialize (Hall s e Hmax). lia.
Qed.


Lemma end_ms_le (e e' frame_length sample_rate : Z) :
  0 < sample_rate -> e <= e' ->
  (end_ms e frame_length sample_rate
   <= end_ms e' frame_length sample_rate)%Q.
Proof.
  intros Hsr Hle. unfold end_ms, Qdiv.
  apply Qmult_le_compat_r; [|discriminate].
  apply Qmult_le_compat_r.
  - rewrite <- Zle_Qle. lia.
  - apply Qinv_le_0_compat. rewrite <- (Zle_Qle 0). lia.
Qed.

(** X5: lowering [min_frames] never loses a detection and never moves the
    detected end earlier. *)
Theorem detect_speech_end_min_frames_mono (energy_db : list Q)
    (sample_rate frame_length : Z) (threshold_db : Q)
    (min_frames min_frames' : Z) (t : Q) :
  0 < sample_rate ->
  min_frames' <= min_frames ->
  detect_speech_end energy_db sample_rate frame_length threshold_db
    min_frames = Ok (Some t) ->
  exists t',
    detect_speech_end energy_db sample_rate frame_length threshold_db
      min_frames' = Ok (Some t') /\ (t <= t')%Q.
Proof.
  intros Hsr Hmf Hdet.
  destruct (detect_speech_end_spec energy_db sample_rate frame_length
              threshold_db min_frames)
    as [[Hnone _]|(s & e & Hmax & Hq & _ & Hres)];
    [rewrite Hnone in Hdet; discriminate|].
  rewrite Hres, truediv_ok in Hdet by lia. simpl in Hdet.
  injection Hdet as <-.
  destruct (detect_speech_end_spec energy_db sample_rate frame_length
              threshold_db min_frames')
    as [[_ Hall]|(s0 & e0 & Hmax0 & Hq0 & Hlater0 & Hres0)].
  - specialize (Hall s e Hmax). lia.
  - exists (end_ms e0 frame_length sample_rate).
    rewrite Hres0, truediv_ok by lia. split; [reflexivity|].
    apply end_ms_le; [exact Hsr|].
    destruct (Z_le_gt_dec e e0) as [Hle|Hgt]; [exact Hle|].
    assert (e0 < s) as Hlt.
    { destruct (Z_lt_le_dec e0 s) as [H|H]; [exact H|].
      destruct (maximal_run_unique energy_db threshold_db s e s0 e0 e0
                  Hmax Hmax0) as [_ <-]; [lia| |lia].
      destruct Hmax0 as (Hse0 & _). lia. }
    specialize (Hlater0 s e Hmax Hlt). lia.
Qed.

Lemma detect_speech_end_min_frames_mono_witness :
  exists t',
    detect_speech_end [-10; -10; -10; -10; -60; -5; -5; -60]%Q 16000 160
      (-40)%Q 2 = Ok (Some t') /\
    (end_ms 3 160 16000 <= t')%Q.
Proof.
  apply (detect_speech_end_min_frames_mono
           [-10; -10; -10; -10; -60; -5; -5; -60]%Q 16000 160 (-40)%Q 4 2).
  - lia.
  - lia.
  - vm_compute. reflexivity.
Defined.

(** ** Trailing frames below the threshold *)

Lemma getitem_app_l {A : Type} (l l' : list A) (j : Z) :
  0 <= j < len l -> getitem (l ++ l') j = getitem l j.
Proof.
  intros Hj. unfold getitem, len in *. rewrite length_app.
  replace (j <? 0) with false by (symmetry; apply Z.ltb_ge; lia).
  replace ((0 <=? j) && (j <? Z.of_nat (length l + length l')))
    with true
    by (symmetry; apply andb_true_iff;
        split; [apply Z.leb_le|apply Z.ltb_lt]; lia).
  replace ((0 <=? j) && (j <? Z.of_nat (length l)))
    with true
    by (symmetry; apply andb_true_iff;
        split; [apply Z.leb_le|apply Z.ltb_lt]; lia).
  rewrite lookup_app_l by lia. reflexivity.
Qed.

Lemma run_start_loop_app (l l' : list bool) (i : Z) :
  i <= len l -> run_start_loop (l ++ l') i = run_start_loop l i.
Proof.
  remember (Z.to_nat i) as d eqn:Hd. revert i Hd.
  induction d as [d IH] using lt_wf_ind. intros i Hd Hi.
  rewrite (run_start_loop_step (l ++ l')), (run_start_loop_step l).
  unfold run_start_iter. destruct (i >? 0) eqn:Hpos; [|reflexivity].
  apply Z.gtb_lt in Hpos.
  rewrite getitem_app_l by lia.
  destruct (getitem l (i - 1)) as [[|]|]; try reflexivity.
  apply (IH (Z.to_nat (i - 1))); [lia|reflexivity|lia].
Qed.

(** The scan entered inside a prefix of the profile does not look at what
    follows the prefix. *)
Lemma scan_loop_app (l l' : list bool) (sr fl mf i : Z) :
  -1 <= i < len l ->
  scan_loop (l ++ l') sr fl mf i = scan_loop l sr fl mf i.
Proof.
  remember (Z.to_nat (i + 1)) as d eqn:Hd. revert i Hd.
  induction d as [d IH] using lt_wf_ind. intros i Hd Hi.
  rewrite (scan_loop_step (l ++ l')), (scan_loop_step l).
  assert (Hiter : scan_iter (l ++ l') sr fl mf i = scan_iter l sr fl mf i).
  { unfold scan_iter. destruct (i >=? 0) eqn:Hpos; [|reflexivity].
    apply Z.geb_le in Hpos.
    rewrite getitem_app_l by lia. rewrite run_start_loop_app by lia.
    reflexivity. }
  rewrite Hiter.
  destruct (scan_iter l sr fl mf i) as [i'|r] eqn:Hnext; [|reflexivity].
  apply scan_iter_next in Hnext.
  apply (IH (Z.to_nat (i' + 1))); [lia|reflexivity|lia].
Qed.

Lemma below_threshold_tail (energy_db tail : list Q) (threshold_db : Q)
    (j : Z) :
  (forall e, e ∈ tail -> (e <= threshold_db)%Q) ->
  len energy_db <= j < len (energy_db ++ tail) ->
  below_threshold (energy_db ++ tail) threshold_db j.
Proof.
  intros Htail Hj. unfold len in Hj. rewrite length_app in Hj.
  destruct ((energy_db ++ tail) !! Z.to_nat j) as [e|] eqn:He.
  - exists e. split; [exact He|]. apply Htail.
    rewrite lookup_app_r in He by lia.
    eapply list_elem_of_lookup_2. exact He.
  - apply lookup_ge_None in He. rewrite length_app in He. lia.
Qed.

(** X6: frames at or below the threshold appended to a profile do not
    change what the detector returns. *)
Theorem detect_speech_end_trailing_below (energy_db tail : list Q)
    (sample_rate frame_length : Z) (threshold_db : Q) (min_frames : Z) :
  (forall e, e ∈ tail -> (e <= threshold_db)%Q) ->
  detect_speech_end (energy_db ++ tail) sample_rate frame_length
    threshold_db min_frames
  = detect_speech_end energy_db sample_rate frame_length threshold_db
      min_frames.
Proof.
  intros Htail.
  destruct (Z_lt_le_dec (len energy_db) min_frames) as [Hshort|Hlong].
  - assert (Hrhs : detect_speech_end energy_db sample_rate frame_length
                     threshold_db min_frames = Ok None).
    { unfold detect_speech_end.
      now replace (len energy_db <? min_frames) with true
        by (symmetry; apply Z.ltb_lt; lia). }
    rewrite Hrhs.
    destruct (detect_speech_end_spec (energy_db ++ tail) sample_rate
                frame_length threshold_db min_frames)
      as [[Hnone _]|(s & e & (Hse & He & Hrun & _) & Hq & _)];
      [exact Hnone|].
    destruct (Z_lt_le_dec e (len energy_db)) as [Hin|Hout]; [lia|].
    destruct (above_below_excl (energy_db ++ tail) threshold_db e);
      [apply Hrun; lia|].
    apply below_threshold_tail; [exact Htail|lia].
  - unfold detect_speech_end.
    assert (Hlen : len (energy_db ++ tail) = len energy_db + len tail).
    { unfold len. rewrite length_app. lia. }
    replace (len energy_db <? min_frames) with false
      by (symmetry; apply Z.ltb_ge; lia).
    replace (len (energy_db ++ tail) <? min_frames) with false
      by (symmetry; apply Z.ltb_ge; unfold len in *; lia).
    cbv zeta.
    rewrite (scan_loop_skip _ _ _ _ (len energy_db - 1)).
    + unfold classify. rewrite map_app. apply scan_loop_app.
      unfold len. rewrite length_map. lia.
    + unfold len in *. lia.
    + intros j Hj. apply classify_below.
      apply below_threshold_tail; [exact Htail|lia].
Qed.

Lemma detect_speech_end_trailing_below_witness :
  detect_speech_end ([-10; -10; -10; -10; -60]%Q ++ [-45; -40]%Q)
    16000 160 (-40)%Q 4
  = detect_speech_end [-10; -10; -10; -10; -60]%Q 16000 160 (-40)%Q 4.
Proof.
  apply detect_speech_end_trailing_below.
  intros e He. repeat (apply elem_of_cons in He; destruct He as [->|He]);
    [discriminate..|]. now apply elem_of_nil in He.
Defined.

(** ** Lowering the threshold *)

Lemma run_end_exists (energy_db : list Q) (threshold_db : Q) (i : Z) :
  0 <= i < len energy_db ->
  above_threshold energy_db threshold_db i ->
  exists e, i <= e < len energy_db /\
    (forall j, i <= j <= e -> above_threshold energy_db threshold_db j) /\
    (e = len energy_db - 1 \/ below_threshold energy_db threshold_db (e + 1)).
Proof.
  remember (Z.to_nat (len energy_db - i)) as k eqn:Hk. revert i Hk.
  induction k as [k IH] using lt_wf_ind. intros i Hk Hi Habove.
  destruct (Z.eq_dec i (len energy_db - 1)) as [Hlast|Hnot].
  - exists i. split; [lia|]. split; [|now left].
    intros j Hj. now replace j with i by lia.
  - destruct (above_or_below energy_db threshold_db (i + 1)) as [Ha|Hb];
      [lia| |].
    + destruct (IH (Z.to_nat (len energy_db - (i + 1))) ltac:(lia)
                  (i + 1) eq_refl ltac:(lia) Ha) as (e & He & Hrun & Hend).
      exists e. split; [lia|]. split; [|exact Hend].
      intros j Hj. destruct (Z.eq_dec j i) as [->|Hne]; [exact Habove|].
      apply Hrun. lia.
    + exists i. split; [lia|]. split; [|now right].
      intros j Hj. now replace j with i by lia.
Qed.

(** Every frame above the threshold lies in a run. *)
Lemma maximal_run_containing (energy_db : list Q) (threshold_db : Q)
    (j : Z) :
  0 <= j < len energy_db ->
  above_threshold energy_db threshold_db j ->
  exists s e, maximal_run energy_db threshold_db s e /\ s <= j <= e.
Proof.
  intros Hj Habove.
  destruct (run_start_exists energy_db threshold_db j Hj Habove)
    as (s & Hs & Hrun & Hstart).
  destruct (run_end_exists energy_db threshold_db j Hj Habove)
    as (e & He & Hrun' & Hend).
  exists s, e. split; [|lia].
  split; [lia|]. split; [lia|]. split; [|now split].
  intros k Hk. destruct (Z_le_gt_dec k j); [apply Hrun|apply Hrun']; lia.
Qed.

(** X7: lowering the threshold never loses a detection and never moves
    the detected end earlier. *)
Theorem detect_speech_end_threshold_mono (energy_db : list Q)
    (sample_rate frame_length : Z) (threshold_db threshold_db' : Q)
    (min_frames : Z) (t : Q) :
  0 < sample_rate ->
  (threshold_db' <= threshold_db)%Q ->
  detect_speech_end energy_db sample_rate frame_length threshold_db
    min_frames = Ok (Some t) ->
  exists t',
    detect_speech_end energy_db sample_rate frame_length threshold_db'
      min_frames = Ok (Some t') /\ (t <= t')%Q.
Proof.
  intros Hsr Hthr Hdet.
  destruct (detect_speech_end_spec energy_db sample_rate frame_length
              threshold_db min_frames)
    as [[Hnone _]|(s & e & Hmax & Hq & _ & Hres)];
    [rewrite Hnone in Hdet; discriminate|].
  rewrite Hres, truediv_ok in Hdet by lia. simpl in Hdet.
  injection Hdet as <-.
  destruct Hmax as (Hse & He & Hrun & _).
  assert (Hrun' : forall j, s <= j <= e ->
                    above_threshold energy_db threshold_db' j).
  { intros j Hj. destruct (Hrun j Hj) as (x & Hx & Hlt).
    exists x. split; [exact Hx|]. eapply Qle_lt_trans; eassumption. }
  destruct (maximal_run_containing energy_db threshold_db' s)
    as (s1 & e1 & Hmax1 & Hin1); [lia|apply Hrun'; lia|].
  assert (He1 : e <= e1).
  { destruct (Z_le_gt_dec e e1) as [H|H]; [exact H|].
    destruct Hmax1 as (_ & Hlen1 & _ & _ & [Hlast|Hb]); [lia|].
    destruct (above_below_excl energy_db threshold_db' (e1 + 1));
      [apply Hrun'; lia|exact Hb]. }
  destruct (detect_speech_end_spec energy_db sample_rate frame_length
              threshold_db' min_frames)
    as [[_ Hall]|(s0 & e0 & Hmax0 & Hq0 & Hlater0 & Hres0)].
  - specialize (Hall s1 e1 Hmax1). lia.
  - exists (end_ms e0 frame_length sample_rate).
    rewrite Hres0, truediv_ok by lia. split; [reflexivity|].
    apply end_ms_le; [exact Hsr|].
    destruct (Z_le_gt_dec e1 e0) as [Hle|Hgt]; [lia|].
    assert (e0 < s1) as Hlt.
    { destruct (Z_lt_le_dec e0 s1) as [H|H]; [exact H|].
      destruct (maximal_run_unique energy_db threshold_db' s1 e1 s0 e0 e0
                  Hmax1 Hmax0) as [_ <-]; [lia| |lia].
      destruct Hmax0 as (Hse0 & _). lia. }
    specialize (Hlater0 s1 e1 Hmax1 Hlt). lia.
Qed.

Lemma detect_speech_end_threshold_mono_witness :
  exists t',
    detect_speech_end [-10; -10; -10; -10; -45; -45; -60]%Q 16000 160
      (-50)%Q 4 = Ok (Some t') /\
    (end_ms 3 160 16000 <= t')%Q.
Proof.
  apply (detect_speech_end_threshold_mono
           [-10; -10; -10; -10; -45; -45; -60]%Q 16000 160 (-40)%Q (-50)%Q
           4).
  - lia.
  - discriminate.
  - vm_compute. reflexivity.
Defined.

(** * Further properties of the framer *)

Lemma rev_replicate {A : Type} (n : nat) (x : A) :
  rev (replicate n x) = replicate n x.
Proof.
  induction n as [|n IH]; [reflexivity|].
  simpl. rewrite IH. symmetry. apply replicate_cons_app.
Qed.

Lemma window_replicate (frame_length : Z) :
  map (fun o => (o / inject_Z frame_length)%Q) (np_ones frame_length)
  = replicate (Z.to_nat frame_length) (1 / inject_Z frame_length)%Q.
Proof.
  unfold np_ones.
  change (map ?f (replicate ?n ?x)) with (f <$> replicate n x).
  rewrite fmap_replicate. reflexivity.
Qed.

Lemma correlate_valid_lookup (a v : list Q) (k : nat) :
  (0 < length v)%nat -> (k + length v <= length a)%nat ->
  correlate_valid a v !! k = Some (dot (drop k a) v).
Proof.
  intros Hv. revert k. induction a as [|x a IH]; intros k Hk.
  - simpl in Hk. lia.
  - unfold correlate_valid; fold correlate_valid.
    replace (length v <=? length (x :: a))%nat with true
      by (symmetry; apply Nat.leb_le; lia).
    destruct k as [|k]; [reflexivity|].
    simpl. apply IH. simpl in Hk. lia.
Qed.

Lemma dot_replicate_r (a : list Q) (m : nat) (c : Q) :
  (dot a (replicate m c) == c * Qsum (take m a))%Q.
Proof.
  revert m. induction a as [|x a IH]; intros m.
  - destruct m; simpl; ring.
  - destruct m as [|m]; simpl; [ring|].
    rewrite IH. unfold Qsum. simpl. ring.
Qed.

(** X8: on a signal of at least [frame_length] samples, entry [k] of the
    profile is [10 * log10(max(p, 1e-12))] for the mean [p] of the squares
    of the [frame_length] samples that start at index [k]. *)
Theorem rolling_energy_db_rolling_mean (log10 : Q -> Q)
    (signal : list Q) (sample_rate : Z) (frame_ms : Q) (k : Z) :
  let frame_length :=
    Z.max 1 (py_round (inject_Z sample_rate * frame_ms / 1000)%Q) in
  frame_length <= len signal ->
  0 <= k <= len signal - frame_length ->
  exists p energy_db,
    rolling_energy_db log10 signal sample_rate frame_ms
    = Ok (energy_db, frame_length) /\
    energy_db !! Z.to_nat k
    = Some (10 * log10 (Qmax p (1 # 1000000000000)))%Q /\
    (p == frame_power signal frame_length k)%Q.
Proof.
  intros fl Hfl Hk.
  set (sq := map (fun x => (x * x)%Q) signal).
  set (c := (1 / inject_Z fl)%Q).
  exists (dot (drop (Z.to_nat k) sq) (replicate (Z.to_nat fl) c)).
  eexists. split; [|split].
  - unfold rolling_energy_db, np_convolve_valid. fold fl. fold sq.
    rewrite window_replicate. fold c.
    replace (len sq <? len (replicate (Z.to_nat fl) c)) with false.
    2:{ symmetry. apply Z.ltb_ge. unfold len, sq in *.
        rewrite length_replicate, length_map. lia. }
    replace (len sq =? 0) with false.
    2:{ symmetry. apply Z.eqb_neq. unfold len, sq in *.
        rewrite length_map. lia. }
    replace (len (replicate (Z.to_nat fl) c) =? 0) with false.
    2:{ symmetry. apply Z.eqb_neq. unfold len.
        rewrite length_replicate. lia. }
    simpl. rewrite rev_replicate. reflexivity.
  - change (map ?f ?l !! ?i) with ((f <$> l) !! i).
    rewrite list_lookup_fmap, correlate_valid_lookup.
    + reflexivity.
    + rewrite length_replicate. lia.
    + unfold len, sq in *. rewrite length_replicate, length_map. lia.
  - rewrite dot_replicate_r. unfold frame_power, c, sq.
    change (drop ?n (map ?f ?l)) with (drop n (f <$> l)).
    rewrite <- fmap_drop.
    change (take ?n (?f <$> ?l)) with (take n (f <$> l)).
    rewrite <- fmap_take.
    change (?f <$> ?l) with (map f l). unfold Qdiv. ring.
Qed.

Lemma rolling_energy_db_rolling_mean_witness :
  exists p energy_db,
    rolling_energy_db log10_floor [1; 1; 1; 1; 1; 0; 0]%Q 200 10
    = Ok (energy_db, 2) /\
    energy_db !! Z.to_nat 4
    = Some (10 * log10_floor (Qmax p (1 # 1000000000000)))%Q /\
    (p == frame_power [1; 1; 1; 1; 1; 0; 0]%Q 2 4)%Q.
Proof.
  apply (rolling_energy_db_rolling_mean log10_floor
           [1; 1; 1; 1; 1; 0; 0]%Q 200 10 4).
  - vm_compute. discriminate.
  - vm_compute. split; discriminate.
Defined.

(** X9: the logarithm is never taken of a power below [1e-12]: every
    entry of a profile is [10 * log10(p)] for some [p >= 1e-12]. *)
Theorem rolling_energy_db_floor (log10 : Q -> Q) (signal energy_db : list Q)
    (sample_rate frame_length : Z) (frame_ms : Q) (e : Q) :
  rolling_energy_db log10 signal sample_rate frame_ms
  = Ok (energy_db, frame_length) ->
  e ∈ energy_db ->
  exists p, e = (10 * log10 p)%Q /\ (1 # 1000000000000 <= p)%Q.
Proof.
  unfold rolling_energy_db.
  destruct (np_convolve_valid _ _) as [energy|]; [|discriminate].
  simpl. intros [= <- _] He.
  change (map ?f ?l) with (f <$> l) in He.
  apply list_elem_of_fmap in He as (x & -> & _).
  eexists. split; [reflexivity|]. apply Q.le_max_r.
Qed.

Lemma rolling_energy_db_floor_witness :
  exists p, (-120)%Q = (10 * log10_floor p)%Q /\
            (1 # 1000000000000 <= p)%Q.
Proof.
  apply (rolling_energy_db_floor log10_floor [1; 1; 0; 0]%Q
           [0; -10; -120]%Q 200 2 10 (-120)%Q).
  - vm_compute. reflexivity.
  - apply list_elem_of_In. simpl. tauto.
Defined.

(** ** A silent signal *)

Lemma dot_zero_l (a v : list Q) :
  Forall (fun x => (x == 0)%Q) a -> (dot a v == 0)%Q.
Proof.
  intros Ha. revert v. induction Ha as [|x a Hx Ha IH]; intros v.
  - reflexivity.
  - destruct v as [|y v]; [reflexivity|].
    simpl. rewrite IH, Hx. ring.
Qed.

Lemma dot_zero_r (a v : list Q) :
  Forall (fun x => (x == 0)%Q) v -> (dot a v == 0)%Q.
Proof.
  intros Hv. revert a. induction Hv as [|y v Hy Hv IH]; intros a.
  - destruct a; reflexivity.
  - destruct a as [|x a]; [reflexivity|].
    simpl. rewrite IH, Hy. ring.
Qed.

Lemma correlate_valid_zero (a v : list Q) :
  Forall (fun x => (x == 0)%Q) a \/ Forall (fun x => (x == 0)%Q) v ->
  Forall (fun x => (x == 0)%Q) (correlate_valid a v).
Proof.
  induction a as [|x a IH]; intros Hz; [constructor|].
  unfold correlate_valid; fold correlate_valid.
  destruct (length v <=? length (x :: a))%nat; [|constructor].
  constructor.
  - destruct Hz as [Ha|Hv]; [now apply dot_zero_l|now apply dot_zero_r].
  - apply IH. destruct Hz as [Ha|Hv]; [left|now right].
    now apply Forall_inv_tail in Ha.
Qed.

Lemma np_convolve_valid_zero (a v c : list Q) :
  Forall (fun x => (x == 0)%Q) a ->
  np_convolve_valid a v = Ok c ->
  Forall (fun x => (x == 0)%Q) c.
Proof.
  intros Ha. unfold np_convolve_valid.
  destruct (len a <? len v).
  - destruct (len v =? 0); [discriminate|].
    destruct (len a =? 0); [discriminate|]. intros [= <-].
    apply correlate_valid_zero. right. now apply Forall_rev.
  - destruct (len a =? 0); [discriminate|].
    destruct (len v =? 0); [discriminate|]. intros [= <-].
    apply correlate_valid_zero. now left.
Qed.

Lemma Qmax_floor_zero (x : Q) :
  (x == 0)%Q -> Qmax x (1 # 1000000000000) = (1 # 1000000000000)%Q.
Proof.
  intros Hx. unfold Qmax, GenericMinMax.gmax.
  assert (Hlt : (x < 1 # 1000000000000)%Q) by (rewrite Hx; reflexivity).
  now rewrite (proj1 (Qlt_alt x (1 # 1000000000000)) Hlt).
Qed.

(** Every entry of the profile of a silent signal is the floor level. *)
Lemma rolling_energy_db_silent (log10 : Q -> Q) (signal energy_db : list Q)
    (sample_rate frame_length : Z) (frame_ms : Q) :
  Forall (fun x => (x == 0)%Q) signal ->
  rolling_energy_db log10 signal sample_rate frame_ms
  = Ok (energy_db, frame_length) ->
  forall e, e ∈ energy_db -> e = (10 * log10 (1 # 1000000000000))%Q.
Proof.
  intros Hz. unfold rolling_energy_db.
  destruct (np_convolve_valid _ _) as [energy|] eqn:Hc; [|discriminate].
  simpl. intros [= <- _] e He.
  apply np_convolve_valid_zero in Hc.
  - change (map ?f ?l) with (f <$> l) in He.
    apply list_elem_of_fmap in He as (x & -> & Hx).
    rewrite Qmax_floor_zero; [reflexivity|].
    rewrite Forall_forall in Hc. apply Hc. exact Hx.
  - clear Hc. induction Hz as [|x l Hx Hl IH]; constructor; [|exact IH].
    rewrite Hx. reflexivity.
Qed.

Lemma detect_speech_end_below (energy_db : list Q)
    (sample_rate frame_length : Z) (threshold_db : Q) (min_frames : Z) :
  (forall e, e ∈ energy_db -> (e <= threshold_db)%Q) ->
  detect_speech_end energy_db sample_rate frame_length threshold_db
    min_frames = Ok None.
Proof.
  intros Hall.
  destruct (detect_speech_end_spec energy_db sample_rate frame_length
              threshold_db min_frames)
    as [[Hnone _]|(s & e & (Hse & He & Hrun & _) & _)]; [exact Hnone|].
  destruct (Hrun e ltac:(lia)) as (x & Hx & Hlt).
  apply list_elem_of_lookup_2, Hall in Hx.
  destruct (Qlt_not_le _ _ Hlt Hx).
Qed.

(** * Further properties of the batch pipeline *)

(** X10: a non-empty signal of zeros takes the fallback: when the floor
    level [10 * log10(1e-12)] is not above the threshold, the body of the
    loop stores the full duration under the key and appends the warning. *)
Theorem main_file_silent (log10 : Q -> Q) (key : string)
    (samples : list Q) (sr : Z) (st : state) :
  samples <> [] ->
  Forall (fun x => (x == 0)%Q) samples ->
  sr <> 0 ->
  (10 * log10 (1 # 1000000000000) <= THRESHOLD_DB)%Q ->
  main_file log10 key (Ok (samples, sr)) st
  = State (<[key := round1 (inject_Z (len samples) / inject_Z sr * 1000)]>
             (durations st))
          (errors st ++ [key +:+ ": no speech detected"]).
Proof.
  intros Hne Hz Hsr Hfloor.
  destruct (rolling_energy_db_length log10 samples sr FRAME_MS)
    as (p & Hp & _).
  { unfold len. destruct samples; [contradiction|simpl; lia]. }
  unfold main_file, main_try. simpl.
  rewrite truediv_ok by exact Hsr. simpl. rewrite Hp. simpl.
  rewrite detect_speech_end_below; [reflexivity|].
  intros e He.
  rewrite (rolling_energy_db_silent log10 samples p sr _ FRAME_MS Hz Hp e He).
  exact Hfloor.
Qed.

Lemma main_file_silent_witness :
  main_file log10_floor "female_luna" (Ok (replicate 3 0%Q, 16000))
    (State ∅ [])
  = State (<["female_luna" :=
             round1 (inject_Z (len (replicate 3 0%Q)) / inject_Z 16000
                     * 1000)]> ∅)
          ([] ++ ["female_luna" +:+ ": no speech detected"]).
Proof.
  apply (main_file_silent log10_floor "female_luna" (replicate 3 0%Q)
           16000 (State ∅ [])).
  - discriminate.
  - repeat constructor.
  - lia.
  - vm_compute. discriminate.
Defined.

(** An invariant of the accumulators kept by the body of the loop is kept
    by the loop. *)
Lemma main_loop_invariant (log10 : Q -> Q) (P : state -> Prop)
    (corpus : list (string * result (list Q * Z))) (st : state) :
  (forall key decoded st, P st -> P (main_file log10 key decoded st)) ->
  P st -> P (main_loop log10 corpus st).
Proof.
  intros Hstep. revert st.
  induction corpus as [|[key decoded] corpus IH]; intros st Hst.
  - exact Hst.
  - unfold main_loop in *. simpl. apply IH, Hstep, Hst.
Qed.

(** X11: every value of [durations] at the end of a run has at most one
    decimal: it is an integer number of tenths. *)
Theorem main_durations_one_decimal (log10 : Q -> Q)
    (corpus : list (string * result (list Q * Z))) (key : string) (v : Q) :
  durations (main log10 corpus) !! key = Some v ->
  exists tenths : Z, v = (inject_Z tenths / 10)%Q.
Proof.
  revert key v. unfold main.
  apply (main_loop_invariant log10
           (fun st => forall key v, durations st !! key = Some v ->
                        exists tenths : Z, v = (inject_Z tenths / 10)%Q)).
  - intros k decoded st Hst key v. unfold main_file.
    destruct (main_try log10 decoded) as [[total_ms [end_ms'|]]|e];
      simpl; [| |apply Hst].
    + destruct (decide (k = key)) as [->|Hne].
      * rewrite lookup_insert_eq. intros [= <-]. now eexists.
      * rewrite lookup_insert_ne by exact Hne. apply Hst.
    + destruct (decide (k = key)) as [->|Hne].
      * rewrite lookup_insert_eq. intros [= <-]. now eexists.
      * rewrite lookup_insert_ne by exact Hne. apply Hst.
  - intros key v. simpl. rewrite lookup_empty. discriminate.
Qed.

Lemma main_durations_one_decimal_witness :
  exists tenths : Z, round1 (50 / 100 * 1000) = (inject_Z tenths / 10)%Q.
Proof.
  apply (main_durations_one_decimal log10_floor
           [("male_casa", Ok (replicate 50 0%Q, 100))] "male_casa").
  vm_compute. reflexivity.
Defined.

Lemma main_loop_keeps_keys (log10 : Q -> Q)
    (corpus : list (string * result (list Q * Z))) (st : state)
    (key : string) :
  is_Some (durations st !! key) ->
  is_Some (durations (main_loop log10 corpus st) !! key).
Proof.
  revert st. induction corpus as [|[k decoded] corpus IH]; intros st Hst.
  - exact Hst.
  - unfold main_loop in *. simpl. apply IH. unfold main_file.
    destruct (main_try log10 decoded) as [[total_ms [end_ms'|]]|e];
      simpl; try exact Hst;
      (destruct (decide (k = key)) as [->|Hne];
       [rewrite lookup_insert_eq; now eexists
       |now rewrite lookup_insert_ne by exact Hne]).
Qed.

Lemma main_loop_keeps_errors (log10 : Q -> Q)
    (corpus : list (string * result (list Q * Z))) (st : state)
    (entry : string) :
  entry ∈ errors st -> entry ∈ errors (main_loop log10 corpus st).
Proof.
  intros Hin. destruct (main_loop_errors log10 corpus) as (es & Hes).
  rewrite Hes. apply elem_of_app. now left.
Qed.

(** X12: at the end of a run every file of the corpus has left its trace:
    a value under its key when the detector returned a timestamp, a value
    and the warning when it returned "not found", and the error entry
    with its key when decoding or framing raised. *)
Theorem main_every_file_recorded (log10 : Q -> Q)
    (corpus : list (string * result (list Q * Z)))
    (key : string) (decoded : result (list Q * Z)) :
  (key, decoded) ∈ corpus ->
  match main_try log10 decoded with
  | Ok (_, Some _) => is_Some (durations (main log10 corpus) !! key)
  | Ok (_, None) =>
      is_Some (durations (main log10 corpus) !! key) /\
      (key +:+ ": no speech detected") ∈ errors (main log10 corpus)
  | Raise e => (key +:+ ": " +:+ str e) ∈ errors (main log10 corpus)
  end.
Proof.
  intros Hin. apply list_elem_of_split in Hin as (pre & post & ->).
  unfold main. rewrite main_loop_app.
  set (st := main_loop log10 pre (State ∅ [])).
  change (main_loop log10 ((key, decoded) :: post) st)
    with (main_loop log10 post (main_file log10 key decoded st)).
  unfold main_file.
  destruct (main_try log10 decoded) as [[total_ms [end_ms'|]]|e].
  - apply main_loop_keeps_keys. simpl. rewrite lookup_insert_eq.
    now eexists.
  - split.
    + apply main_loop_keeps_keys. simpl. rewrite lookup_insert_eq.
      now eexists.
    + apply main_loop_keeps_errors. simpl. apply elem_of_app. right.
      apply list_elem_of_singleton. reflexivity.
  - apply main_loop_keeps_errors. simpl. apply elem_of_app. right.
    apply list_elem_of_singleton. reflexivity.
Qed.

Lemma main_every_file_recorded_witness :
  ("male_gato" +:+ ": " +:+ str (ValueError "v cannot be empty"))
  ∈ errors (main log10_floor
              [("male_casa", Ok (replicate 50 0%Q, 100));
               ("male_gato", Ok ([], 16000))]).
Proof.
  apply (main_every_file_recorded log10_floor
           [("male_casa", Ok (replicate 50 0%Q, 100));
            ("male_gato", Ok ([], 16000))]
           "male_gato" (Ok ([], 16000))).
  apply list_elem_of_In. simpl. tauto.
Defined.

Lemma main_loop_errors_length (log10 : Q -> Q)
    (corpus : list (string * result (list Q * Z))) (st : state) :
  length (errors (main_loop log10 corpus st))
  = (length (errors st)
     + length (filter (fun f => negb (detected log10 f.2)) corpus))%nat.
Proof.
  revert st. induction corpus as [|[key decoded] corpus IH]; intros st.
  - simpl. lia.
  - change (main_loop log10 ((key, decoded) :: corpus) st)
      with (main_loop log10 corpus (main_file log10 key decoded st)).
    rewrite IH. rewrite filter_cons. unfold main_file, detected. simpl.
    destruct (main_try log10 decoded) as [[total_ms [end_ms'|]]|e]; simpl;
      rewrite ?length_app; simpl; lia.
Qed.

(** X13: the number of entries of [errors] at the end of a run is the
    number of files for which the detector did not return a timestamp
    (files that raised and files with no speech found). *)
Theorem main_errors_count (log10 : Q -> Q)
    (corpus : list (string * result (list Q * Z))) :
  length (errors (main log10 corpus))
  = length (filter (fun f => negb (detected log10 f.2)) corpus).
Proof. unfold main. now rewrite main_loop_errors_length. Qed.

Lemma main_loop_durations_source (log10 : Q -> Q)
    (corpus : list (string * result (list Q * Z))) (st : state)
    (key : string) :
  is_Some (durations (main_loop log10 corpus st) !! key) ->
  is_Some (durations st !! key) \/
  exists decoded r,
    (key, decoded) ∈ corpus /\ main_try log10 decoded = Ok r.
Proof.
  revert st. induction corpus as [|[k decoded] corpus IH]; intros st Hsome.
  - now left.
  - change (main_loop log10 ((k, decoded) :: corpus) st)
      with (main_loop log10 corpus (main_file log10 k decoded st)) in Hsome.
    destruct (IH _ Hsome) as [Hst|(d & r & Hin & Hok)].
    + unfold main_file in Hst.
      destruct (main_try log10 decoded) as [[total_ms end_ms']|e] eqn:Htry.
      * destruct (decide (k = key)) as [->|Hne].
        -- right. exists decoded, (total_ms, end_ms').
           split; [apply elem_of_cons; now left|exact Htry].
        -- left. destruct end_ms'; simpl in Hst;
             now rewrite lookup_insert_ne in Hst by exact Hne.
      * now left.
    + right. exists d, r. split; [apply elem_of_cons; now right|exact Hok].
Qed.

(** X14: a key has a value in [durations] at the end of a run only if the
    corpus has a file with that key whose decoding and framing did not
    raise. *)
Theorem main_durations_source (log10 : Q -> Q)
    (corpus : list (string * result (list Q * Z))) (key : string) :
  is_Some (durations (main log10 corpus) !! key) ->
  exists decoded r,
    (key, decoded) ∈ corpus /\ main_try log10 decoded = Ok r.
Proof.
  intros Hsome. unfold main in Hsome.
  apply main_loop_durations_source in Hsome as [Hinit|Hsrc];
    [|exact Hsrc].
  simpl in Hinit. rewrite lookup_empty in Hinit.
  now destruct Hinit.
Qed.

Lemma main_durations_source_witness :
  exists decoded r,
    ("male_casa", decoded)
    ∈ [("male_casa", Ok (replicate 50 0%Q, 100));
       ("male_gato", Ok ([], 16000))] /\
    main_try log10_floor decoded = Ok r.
Proof.
  apply (main_durations_source log10_floor
           [("male_casa", Ok (replicate 50 0%Q, 100));
            ("male_gato", Ok ([], 16000))] "male_casa").
  vm_compute. now eexists.
Defined.

(** ** Order of the files *)

Lemma main_file_durations_commute (log10 : Q -> Q) (k1 k2 : string)
    (d1 d2 : result (list Q * Z)) (st : state) :
  k1 <> k2 ->
  durations (main_file log10 k2 d2 (main_file log10 k1 d1 st))
  = durations (main_file log10 k1 d1 (main_file log10 k2 d2 st)).
Proof.
  intros Hne. unfold main_file.
  destruct (main_try log10 d1) as [[t1 [e1|]]|x1];
    destruct (main_try log10 d2) as [[t2 [e2|]]|x2]; simpl;
    try reflexivity; apply insert_insert_ne; congruence.
Qed.

Lemma main_loop_durations_perm (log10 : Q -> Q)
    (corpus corpus' : list (string * result (list Q * Z))) :
  corpus ≡ₚ corpus' ->
  NoDup corpus.*1 ->
  forall st1 st2, durations st1 = durations st2 ->
    durations (main_loop log10 corpus st1)
    = durations (main_loop log10 corpus' st2).
Proof.
  induction 1 as [|[k d] l l' Hperm IH|[k1 d1] [k2 d2] l|l l' l'' H1 IH1 H2 IH2];
    intros Hnd st1 st2 Hst.
  - exact Hst.
  - change (main_loop log10 ((k, d) :: ?c) ?st)
      with (main_loop log10 c (main_file log10 k d st)).
    apply IH; [now apply NoDup_cons in Hnd as [_ Hnd]|].
    unfold main_file.
    destruct (main_try log10 d) as [[t [e|]]|x]; simpl; now rewrite Hst.
  - change (main_loop log10 (?f1 :: ?f2 :: ?c) ?st)
      with (main_loop log10 c
              (main_file log10 f2.1 f2.2 (main_file log10 f1.1 f1.2 st))).
    simpl. apply main_loop_durations.
    rewrite main_file_durations_commute.
    + unfold main_file.
      destruct (main_try log10 d1) as [[t1 [e1|]]|x1];
        destruct (main_try log10 d2) as [[t2 [e2|]]|x2]; simpl;
        now rewrite Hst.
    + simpl in Hnd. apply NoDup_cons in Hnd as [Hnotin _].
      intros ->. apply Hnotin. apply elem_of_cons. now left.
  - etransitivity; [apply (IH1 Hnd st1 st1 eq_refl)|].
    apply IH2; [|exact Hst].
    now rewrite <- H1.
Qed.

(** X15: when the keys of the corpus are pairwise distinct, [durations]
    at the end of a run does not depend on the order in which the files
    are processed. *)
Theorem main_durations_order (log10 : Q -> Q)
    (corpus corpus' : list (string * result (list Q * Z))) :
  corpus ≡ₚ corpus' ->
  NoDup corpus.*1 ->
  durations (main log10 corpus) = durations (main log10 corpus').
Proof.
  intros Hperm Hnd. unfold main.
  now apply main_loop_durations_perm.
Qed.

Lemma main_durations_order_witness :
  durations (main log10_floor
               [("male_casa", Ok (replicate 50 0%Q, 100));
                ("male_perro", Ok ([1; 1; 1; 1; 1; 0; 0]%Q, 200))])
  = durations (main log10_floor
                 [("male_perro", Ok ([1; 1; 1; 1; 1; 0; 0]%Q, 200));
                  ("male_casa", Ok (replicate 50 0%Q, 100))]).
Proof.
  apply main_durations_order.
  - apply perm_swap.
  - apply NoDup_ListNoDup. simpl. repeat constructor; simpl.
    + intros [H|[]]. discriminate.
    + tauto.
Defined.

(** ** Rounding of the recorded values *)

Lemma py_round_range (x : Q) : Qfloor x <= py_round x <= Qfloor x + 1.
Proof.
  unfold py_round.
  destruct (Qcompare (x - inject_Z (Qfloor x)) (1 # 2)); [|lia|lia].
  destruct (Z.even (Qfloor x)); lia.
Qed.

Lemma Qcompare_cases (p q : Q) :
  match Qcompare p q with
  | Eq => (p == q)%Q
  | Lt => (p < q)%Q
  | Gt => (q < p)%Q
  end.
Proof.
  destruct (Qcompare p q) eqn:Hc.
  - now apply Qeq_alt.
  - now apply Qlt_alt.
  - now apply Qgt_alt.
Qed.

Lemma py_round_near (x : Q) :
  (x - (1 # 2) <= inject_Z (py_round x) <= x + (1 # 2))%Q.
Proof.
  pose proof (Qfloor_le x) as Hlo. pose proof (Qlt_floor x) as Hhi.
  rewrite inject_Z_plus in Hhi. change (inject_Z 1) with 1%Q in Hhi.
  pose proof (Qcompare_cases (x - inject_Z (Qfloor x)) (1 # 2)) as Hc.
  unfold py_round.
  destruct (Qcompare (x - inject_Z (Qfloor x)) (1 # 2)).
  - destruct (Z.even (Qfloor x)); rewrite ?inject_Z_plus;
      change (inject_Z 1) with 1%Q; lra.
  - lra.
  - rewrite inject_Z_plus. change (inject_Z 1) with 1%Q. lra.
Qed.

Lemma py_round_mono (x y : Q) : (x <= y)%Q -> py_round x <= py_round y.
Proof.
  intros Hxy. pose proof (Qfloor_resp_le x y Hxy) as Hfl.
  pose proof (py_round_range x) as Hx. pose proof (py_round_range y) as Hy.
  destruct (Z.eq_dec (Qfloor x) (Qfloor y)) as [Heq|Hne]; [|lia].
  clear Hx Hy Hfl.
  pose proof (Qcompare_cases (x - inject_Z (Qfloor x)) (1 # 2)) as Hcx.
  pose proof (Qcompare_cases (y - inject_Z (Qfloor y)) (1 # 2)) as Hcy.
  unfold py_round. rewrite <- Heq in *.
  destruct (Qcompare (x - inject_Z (Qfloor x)) (1 # 2));
    destruct (Qcompare (y - inject_Z (Qfloor x)) (1 # 2));
    try (destruct (Z.even (Qfloor x))); try lia; lra.
Qed.

Lemma round1_mono (x y : Q) : (x <= y)%Q -> (round1 x <= round1 y)%Q.
Proof.
  intros Hxy. unfold round1, Qdiv.
  apply Qmult_le_compat_r; [|discriminate].
  rewrite <- Zle_Qle. apply py_round_mono. lra.
Qed.

Lemma round1_near (x : Q) :
  (x - (1 # 20) <= round1 x <= x + (1 # 20))%Q.
Proof.
  unfold round1. pose proof (py_round_near (x * 10)) as H.
  set (r := inject_Z (py_round (x * 10))) in *.
  assert (Hdiv : (r / 10 == r * (1 # 10))%Q) by reflexivity.
  rewrite Hdiv. lra.
Qed.

(** X16: the value stored for a file that was decoded and framed differs
    by at most 0.05 ms from what was measured: the timestamp of the
    detector, or the full duration when none was found. *)
Theorem main_file_rounding (log10 : Q -> Q) (key : string)
    (decoded : result (list Q * Z)) (st : state)
    (total_ms : Q) (found : option Q) :
  main_try log10 decoded = Ok (total_ms, found) ->
  let measured := match found with Some t => t | None => total_ms end in
  exists v,
    durations (main_file log10 key decoded st) !! key = Some v /\
    (measured - (1 # 20) <= v <= measured + (1 # 20))%Q.
Proof.
  intros Htry measured. unfold main_file. rewrite Htry.
  exists (round1 measured). split; [|apply round1_near].
  destruct found; simpl; apply lookup_insert_eq.
Qed.

Lemma main_file_rounding_witness :
  exists v,
    durations (main_file log10_floor "male_perro"
                 (Ok ([1; 1; 1; 1; 1; 0; 0]%Q, 200)) (State ∅ []))
    !! "male_perro" = Some v /\
    (end_ms 4 2 200 - (1 # 20) <= v <= end_ms 4 2 200 + (1 # 20))%Q.
Proof.
  apply (main_file_rounding log10_floor "male_perro"
           (Ok ([1; 1; 1; 1; 1; 0; 0]%Q, 200)) (State ∅ [])
           (inject_Z 7 / inject_Z 200 * 1000)%Q
           (Some (end_ms 4 2 200))).
  vm_compute. reflexivity.
Defined.

(** A timestamp of the detector is the end of one of the frames of the
    profile. *)
Lemma detect_speech_end_range (energy_db : list Q)
    (sample_rate frame_length : Z) (threshold_db : Q) (min_frames : Z)
    (t : Q) :
  detect_speech_end energy_db sample_rate frame_length threshold_db
    min_frames = Ok (Some t) ->
  exists run_end,
    0 <= run_end < len energy_db /\
    t = end_ms run_end frame_length sample_rate.
Proof.
  unfold detect_speech_end.
  destruct (len energy_db <? min_frames); [discriminate|].
  cbv zeta. intros Hscan.
  apply scan_loop_result in Hscan as (e & He & _ & ->).
  exists e. split; [lia|reflexivity].
Qed.

Lemma detect_speech_end_raise_inv (energy_db : list Q)
    (sample_rate frame_length : Z) (threshold_db : Q) (min_frames : Z)
    (ex : exn) :
  detect_speech_end energy_db sample_rate frame_length threshold_db
    min_frames = Raise ex ->
  sample_rate = 0.
Proof.
  destruct (detect_speech_end_spec energy_db sample_rate frame_length
              threshold_db min_frames)
    as [[-> _]|(s & e & _ & _ & _ & ->)]; [discriminate|].
  unfold truediv. destruct (sample_rate =? 0) eqn:Hsr; [|discriminate].
  intros _. now apply Z.eqb_eq.
Qed.

(** X17: for a decoded signal of at least one frame and a positive
    sample rate, the value stored under the key lies between zero and the
    rounded full duration of the signal. *)
Theorem main_file_value_bounds (log10 : Q -> Q) (key : string)
    (samples : list Q) (sr : Z) (st : state) :
  0 < sr ->
  Z.max 1 (py_round (inject_Z sr * FRAME_MS / 1000)%Q) <= len samples ->
  exists v,
    durations (main_file log10 key (Ok (samples, sr)) st) !! key = Some v /\
    (0 <= v <= round1 (inject_Z (len samples) / inject_Z sr * 1000))%Q.
Proof.
  intros Hsr Hfl.
  set (total := (inject_Z (len samples) / inject_Z sr * 1000)%Q).
  assert (Htotal : (0 <= total)%Q).
  { apply (end_ms_bounds 0 (len samples) sr (len samples)); lia. }
  assert (H0 : (0 <= round1 0)%Q) by (vm_compute; discriminate).
  destruct (rolling_energy_db_length log10 samples sr FRAME_MS)
    as (p & Hp & Hlen); [lia|].
  unfold main_file, main_try. simpl.
  rewrite truediv_ok by lia. simpl. rewrite Hp. simpl.
  destruct (detect_speech_end p sr _ THRESHOLD_DB MIN_FRAMES)
    as [[t|]|ex] eqn:Hdet; simpl.
  - exists (round1 t). split; [apply lookup_insert_eq|].
    apply detect_speech_end_range in Hdet as (e & He & ->).
    destruct (end_ms_bounds e
                (Z.max 1 (py_round (inject_Z sr * FRAME_MS / 1000)%Q))
                sr (len samples)) as [Hlo Hhi]; [lia|lia|].
    split.
    + eapply Qle_trans; [exact H0|now apply round1_mono].
    + now apply round1_mono.
  - exists (round1 total). split; [apply lookup_insert_eq|].
    split; [|apply Qle_refl].
    eapply Qle_trans; [exact H0|now apply round1_mono].
  - apply detect_speech_end_raise_inv in Hdet. lia.
Qed.

Lemma main_file_value_bounds_witness :
  exists v,
    durations (main_file log10_floor "male_perro"
                 (Ok ([1; 1; 1; 1; 1; 0; 0]%Q, 200)) (State ∅ []))
    !! "male_perro" = Some v /\
    (0 <= v <= round1 (inject_Z (len [1; 1; 1; 1; 1; 0; 0]%Q)
                       / inject_Z 200 * 1000))%Q.
Proof.
  apply (main_file_value_bounds log10_floor "male_perro"
           [1; 1; 1; 1; 1; 0; 0]%Q 200 (State ∅ [])).
  - lia.
  - vm_compute. discriminate.
Defined.

(** * Properties of the corpus of [main] *)

Lemma sorted_Permutation (l l' : list string) :
  l ≡ₚ l' -> sorted l = sorted l'.
Proof.
  intros Hperm. unfold sorted.
  apply (Sorted_unique String.le).
  - apply Sorted_merge_sort. apply _.
  - apply Sorted_merge_sort. apply _.
  - now rewrite !merge_sort_Permutation.
Qed.

(** X18: what [main] computes depends on [os.listdir] only through the
    set of names ending in [.mp3]: neither the order of a listing nor its
    other names matter. *)
Theorem main_run_listing (log10 : Q -> Q) (STIMULI_ROOT : string)
    (isdir : string -> bool) (listdir listdir' : string -> list string)
    (strip_accents : string -> string)
    (decode_mp3 : string -> result (list Q * Z)) :
  (forall d, filter (fun f => endswith f ".mp3") (listdir d)
             ≡ₚ filter (fun f => endswith f ".mp3") (listdir' d)) ->
  main_run log10 STIMULI_ROOT isdir listdir strip_accents decode_mp3
  = main_run log10 STIMULI_ROOT isdir listdir' strip_accents decode_mp3.
Proof.
  intros Hperm. unfold main_run.
  destruct (negb (isdir STIMULI_ROOT)); [reflexivity|].
  do 3 f_equal. apply map_ext. intros voice. unfold main_voice.
  destruct (negb (isdir (path_join STIMULI_ROOT voice))); [reflexivity|].
  cbv zeta. f_equal. apply sorted_Permutation, Hperm.
Qed.

Lemma main_run_listing_witness :
  main_run log10_floor "/stim" (fun _ => true)
    (fun _ => ["b.mp3"; "notes.txt"; "a.mp3"]) (fun w => w)
    (fun _ => Ok (replicate 50 0%Q, 100))
  = main_run log10_floor "/stim" (fun _ => true)
      (fun _ => ["a.mp3"; "b.mp3"]) (fun w => w)
      (fun _ => Ok (replicate 50 0%Q, 100)).
Proof.
  apply main_run_listing.
  intros d. vm_compute. apply perm_swap.
Defined.

Lemma string_app_cons (x : ascii) (a b : string) :
  String x a +:+ b = String x (a +:+ b).
Proof. reflexivity. Qed.

Lemma string_app_nil (b : string) : "" +:+ b = b.
Proof. reflexivity. Qed.

Lemma string_app_assoc (a b c : string) :
  (a +:+ b) +:+ c = a +:+ (b +:+ c).
Proof.
  induction a as [|x a IH]; [reflexivity|].
  rewrite !string_app_cons. now f_equal.
Qed.

Lemma string_length_app (a b : string) :
  String.length (a +:+ b) = (String.length a + String.length b)%nat.
Proof.
  induction a as [|x a IH]; [reflexivity|].
  rewrite string_app_cons. simpl. now f_equal.
Qed.

Lemma prefix_append (a b : string) : String.prefix a (a +:+ b) = true.
Proof.
  induction a as [|c a IH]; [now destruct b|].
  rewrite string_app_cons. simpl.
  destruct (ascii_dec c c) as [_|Hne]; [exact IH|contradiction].
Qed.

Lemma main_voice_key (STIMULI_ROOT : string) (isdir : string -> bool)
    (listdir : string -> list string) (strip_accents : string -> string)
    (decode_mp3 : string -> result (list Q * Z))
    (voice key : string) (decoded : result (list Q * Z)) :
  (key, decoded)
  ∈ main_voice STIMULI_ROOT isdir listdir strip_accents decode_mp3 voice ->
  String.prefix (voice +:+ "_") key = true.
Proof.
  unfold main_voice.
  destruct (negb (isdir (path_join STIMULI_ROOT voice)));
    [intros Hin; now apply elem_of_nil in Hin|].
  cbv zeta. intros Hin.
  apply list_elem_of_fmap in Hin as (mp3_file & Heq & _).
  unfold main_item in Heq. injection Heq as -> _.
  rewrite <- string_app_assoc. apply prefix_append.
Qed.

(** X19: every key that has a value at the end of a run starts with the
    name of one of the two voices and an underscore. *)
Theorem main_run_keys (log10 : Q -> Q) (STIMULI_ROOT : string)
    (isdir : string -> bool) (listdir : string -> list string)
    (strip_accents : string -> string)
    (decode_mp3 : string -> result (list Q * Z))
    (st : state) (key : string) :
  main_run log10 STIMULI_ROOT isdir listdir strip_accents decode_mp3
  = Some st ->
  is_Some (durations st !! key) ->
  exists voice,
    voice ∈ VOICES /\ String.prefix (voice +:+ "_") key = true.
Proof.
  unfold main_run.
  destruct (negb (isdir STIMULI_ROOT)); [discriminate|].
  intros Hst Hsome. injection Hst as <-. unfold main in Hsome.
  apply main_loop_durations_source in Hsome
    as [Hinit|(decoded & r & Hin & _)].
  { simpl in Hinit. rewrite lookup_empty in Hinit. now destruct Hinit. }
  unfold VOICES in Hin. simpl in Hin.
  rewrite !elem_of_app in Hin. destruct Hin as [Hin|[Hin|Hin]].
  - exists "male". split; [apply elem_of_cons; now left|].
    eapply main_voice_key. exact Hin.
  - exists "female".
    split; [apply elem_of_cons; right; apply elem_of_cons; now left|].
    eapply main_voice_key. exact Hin.
  - now apply elem_of_nil in Hin.
Qed.

Lemma main_run_keys_witness :
  exists voice,
    voice ∈ VOICES /\ String.prefix (voice +:+ "_") "female_a" = true.
Proof.
  apply (main_run_keys log10_floor "/stim"
           (fun d => negb (String.eqb d "/stim/male"))
           (fun _ => ["a.mp3"]) (fun w => w)
           (fun _ => Ok (replicate 50 0%Q, 100))
           (main log10_floor [("female_a", Ok (replicate 50 0%Q, 100))])).
  - vm_compute. reflexivity.
  - vm_compute. now eexists.
Defined.

Lemma str_replace_extension (stem : string) :
  dotless stem = true -> str_replace (stem +:+ ".mp3") ".mp3" "" = stem.
Proof.
  unfold str_replace. induction stem as [|c stem IH]; [reflexivity|].
  intros Hdot. apply andb_true_iff in Hdot as [Hc Hstem].
  apply negb_true_iff, Ascii.eqb_neq in Hc.
  rewrite string_app_cons.
  change (replace_from ".mp3" "" 0 (String c (stem +:+ ".mp3")))
    with (if (if ascii_dec "." c
              then String.prefix "mp3" (stem +:+ ".mp3") else false)
          then "" +:+ replace_from ".mp3" "" 3 (stem +:+ ".mp3")
          else String c (replace_from ".mp3" "" 0 (stem +:+ ".mp3"))).
  destruct (ascii_dec "." c) as [Heq|_]; [now destruct Hc|].
  now rewrite IH.
Qed.

Lemma substring_all (s : string) :
  String.substring 0 (String.length s) s = s.
Proof. induction s as [|c s IH]; simpl; [reflexivity|now rewrite IH]. Qed.

Lemma endswith_append (s suffix : string) :
  endswith (s +:+ suffix) suffix = true.
Proof.
  unfold endswith. rewrite string_length_app.
  apply andb_true_iff. split; [apply Nat.leb_le; lia|].
  apply String.eqb_eq.
  replace (String.length s + String.length suffix - String.length suffix)%nat
    with (String.length s) by lia.
  induction s as [|c s IH]; [apply substring_all|].
  rewrite string_app_cons. simpl. exact IH.
Qed.

(** X20: a file [stem.mp3] of an existing voice directory, with a [stem]
    without a dot, is processed under the key
    [voice_strip_accents(stem)], decoded from its path in that
    directory. *)
Theorem main_voice_file (STIMULI_ROOT : string) (isdir : string -> bool)
    (listdir : string -> list string) (strip_accents : string -> string)
    (decode_mp3 : string -> result (list Q * Z)) (voice stem : string) :
  let voice_dir := path_join STIMULI_ROOT voice in
  isdir voice_dir = true ->
  (stem +:+ ".mp3") ∈ listdir voice_dir ->
  dotless stem = true ->
  (voice +:+ "_" +:+ strip_accents stem,
   decode_mp3 (path_join voice_dir (stem +:+ ".mp3")))
  ∈ main_voice STIMULI_ROOT isdir listdir strip_accents decode_mp3 voice.
Proof.
  intros voice_dir Hdir Hin Hdot. unfold main_voice. fold voice_dir.
  rewrite Hdir. simpl.
  apply list_elem_of_fmap. exists (stem +:+ ".mp3"). split.
  - unfold main_item. now rewrite str_replace_extension.
  - unfold sorted. rewrite merge_sort_Permutation.
    apply list_elem_of_filter. split; [|exact Hin].
    rewrite endswith_append. exact I.
Qed.

Lemma main_voice_file_witness :
  ("male" +:+ "_" +:+ "casa",
   Ok (replicate 50 0%Q, 100) : result (list Q * Z))
  ∈ main_voice "/stim" (fun _ => true) (fun _ => ["notes.txt"; "casa.mp3"])
      (fun w => w) (fun _ => Ok (replicate 50 0%Q, 100)) "male".
Proof.
  apply (main_voice_file "/stim" (fun _ => true)
           (fun _ => ["notes.txt"; "casa.mp3"]) (fun w => w)
           (fun _ => Ok (replicate 50 0%Q, 100)) "male" "casa").
  - reflexivity.
  - apply list_elem_of_In. simpl. tauto.
  - reflexivity.
Defined.

(** ** Files that share a key *)

Lemma main_loop_later_failures (log10 : Q -> Q)
    (post : list (string * result (list Q * Z))) (st : state)
    (key : string) :
  (forall decoded, (key, decoded) ∈ post ->
                   exists e, main_try log10 decoded = Raise e) ->
  durations (main_loop log10 post st) !! key = durations st !! key.
Proof.
  revert st. induction post as [|[k d] post IH]; intros st Hfail.
  - reflexivity.
  - change (main_loop log10 ((k, d) :: post) st)
      with (main_loop log10 post (main_file log10 k d st)).
    rewrite IH.
    2:{ intros d' Hin. apply Hfail. apply elem_of_cons. now right. }
    unfold main_file.
    destruct (main_try log10 d) as [[total_ms found]|e] eqn:Htry;
      [|reflexivity].
    destruct (decide (k = key)) as [->|Hne].
    + destruct (Hfail d) as (e & He); [apply elem_of_cons; now left|].
      rewrite He in Htry. discriminate.
    + destruct found; simpl; now rewrite lookup_insert_ne by exact Hne.
Qed.

(** X21: when several files have the same key, the value at the end of
    a run is the one of the last of them that was decoded and framed;
    later files with that key that raise leave it in place. *)
Theorem main_last_value_wins (log10 : Q -> Q)
    (pre post : list (string * result (list Q * Z)))
    (key : string) (decoded : result (list Q * Z))
    (total_ms : Q) (found : option Q) :
  main_try log10 decoded = Ok (total_ms, found) ->
  (forall decoded', (key, decoded') ∈ post ->
                    exists e, main_try log10 decoded' = Raise e) ->
  durations (main log10 (pre ++ (key, decoded) :: post)) !! key
  = Some (round1 match found with Some t => t | None => total_ms end).
Proof.
  intros Htry Hfail. unfold main. rewrite main_loop_app.
  change (main_loop log10 ((key, decoded) :: post) ?st)
    with (main_loop log10 post (main_file log10 key decoded st)).
  rewrite main_loop_later_failures by exact Hfail.
  unfold main_file. rewrite Htry.
  destruct found; simpl; apply lookup_insert_eq.
Qed.

Lemma main_last_value_wins_witness :
  durations
    (main log10_floor
       ([("male_papa", Ok (replicate 50 0%Q, 100))] ++
        ("male_papa", Ok ([1; 1; 1; 1; 1; 0; 0]%Q, 200)) ::
        [("male_papa", Ok ([], 16000))]))
  !! "male_papa"
  = Some (round1 match Some (end_ms 4 2 200) with
                 | Some t => t
                 | None => (inject_Z 7 / inject_Z 200 * 1000)%Q
                 end).
Proof.
  apply (main_last_value_wins log10_floor
           [("male_papa", Ok (replicate 50 0%Q, 100))]
           [("male_papa", Ok ([], 16000))]
           "male_papa" (Ok ([1; 1; 1; 1; 1; 0; 0]%Q, 200))).
  - vm_compute. reflexivity.
  - intros d Hd. apply list_elem_of_singleton in Hd. injection Hd as ->.
    eexists. vm_compute. reflexivity.
Defined.
